(** * PyHook pipeline runtime: a shallow embedding of [PyHook/pipeline.py]

    The development follows the Python module top to bottom: the values the
    module handles, the exceptions it raises, the [re] pattern for combo
    boxes, [Pipeline] with its settings codec and callbacks, the plugin
    loader and the JSON persistence of the runtime data. *)

From Stdlib Require Import ZArith List String Ascii Bool Lia DecimalString.
From Stdlib Require Import Floats.SpecFloat.
Import ListNotations.

Local Open Scope string_scope.
Local Open Scope Z_scope.

Set Warnings "-register-all".

(* ================================================================== *)
(** ** Python values *)

(** The values that travel through settings tables and through the JSON
    settings file: [None], [bool], [int], [float] (IEEE binary64, as
    [spec_float]), [str], [list] and [dict] with string keys.  A [dict]
    keeps insertion order, so it is an association list. *)
Inductive pyval : Type :=
| PNone
| PBool (b : bool)
| PInt (z : Z)
| PFloat (f : spec_float)
| PStr (s : string)
| PList (l : list pyval)
| PDict (d : list (string * pyval)).

(** Exceptions raised by the module or by the builtins it calls.
    [SystemExit] and [KeyboardInterrupt] derive from [BaseException] only;
    every other one derives from [Exception]. *)
Inductive exn : Type :=
| KeyError
| IndexError
| TypeError
| AttributeError
| ValueError
| OverflowError
| JSONDecodeError
| OSError
| PipelinesDirNotFoundError
| FrameSizeModificationError
| UserError (name : string)
| SystemExit
| KeyboardInterrupt.

Definition isinstance_Exception (e : exn) : bool :=
  match e with
  | SystemExit | KeyboardInterrupt => false
  | _ => true
  end.

(** Result of a computation without side effects. *)
Inductive result (A : Type) : Type :=
| Ok (a : A)
| Err (e : exn).
Arguments Ok {A} a.
Arguments Err {A} e.

Definition rbind {A B} (r : result A) (k : A -> result B) : result B :=
  match r with
  | Ok a => k a
  | Err e => Err e
  end.

Notation "x <-r c ;; k" := (rbind c (fun x => k))
  (at level 61, c at next level, right associativity).

Fixpoint rmap {A B} (f : A -> result B) (l : list A) : result (list B) :=
  match l with
  | [] => Ok []
  | a :: l' => b <-r f a ;; bs <-r rmap f l' ;; Ok (b :: bs)
  end.

(* ------------------------------------------------------------------ *)
(** *** Ordered dictionaries *)

Definition dict (V : Type) : Type := list (string * V).

Fixpoint dict_get {V} (k : string) (d : dict V) : option V :=
  match d with
  | [] => None
  | (k', v) :: d' => if String.eqb k k' then Some v else dict_get k d'
  end.

(** [d[k] = v]: an existing key keeps its position, a new key goes last. *)
Fixpoint dict_set {V} (k : string) (v : V) (d : dict V) : dict V :=
  match d with
  | [] => [(k, v)]
  | (k', v') :: d' =>
      if String.eqb k k' then (k, v) :: d' else (k', v') :: dict_set k v d'
  end.

Definition dict_mem {V} (k : string) (d : dict V) : bool :=
  match dict_get k d with
  | Some _ => true
  | None => false
  end.

Definition dict_keys {V} (d : dict V) : list string := map fst d.

(** [d[k]], raising [KeyError] on a missing key. *)
Definition dict_item {V} (k : string) (d : dict V) : result V :=
  match dict_get k d with
  | Some v => Ok v
  | None => Err KeyError
  end.

(* ------------------------------------------------------------------ *)
(** *** Strings *)

Definition str_in (s : string) (l : list string) : bool :=
  existsb (String.eqb s) l.

Fixpoint is_prefix (p s : string) : bool :=
  match p, s with
  | EmptyString, _ => true
  | String a p', String b s' => Ascii.eqb a b && is_prefix p' s'
  | String _ _, EmptyString => false
  end.

(** [p in s] for two strings: [p] occurs in [s]. *)
Fixpoint is_substring (p s : string) : bool :=
  is_prefix p s ||
  match s with
  | EmptyString => false
  | String _ s' => is_substring p s'
  end.

Fixpoint chars (s : string) : list string :=
  match s with
  | EmptyString => []
  | String a s' => String a EmptyString :: chars s'
  end.

(** [s[:-3]]. *)
Definition drop_last3 (s : string) : string :=
  substring 0 (String.length s - 3) s.

(* ================================================================== *)
(** ** Regular expressions: [_COMBO_TAG_REGEX]

    [re.match] looks for a match that starts at the first character.  The
    pattern ends in [$], so a match covers the whole string, up to one
    final newline.  Whether a match exists does not depend on the order
    in which a backtracking engine tries the alternatives, so lazy and
    greedy stars are the same star here and matching is membership in the
    language of the pattern, decided with derivatives. *)

Inductive regex : Type :=
| Void
| Eps
| Chr (c : ascii)
| Dot
| Cat (r s : regex)
| Alt (r s : regex)
| Star (r : regex).

Definition newline : ascii := "010"%char.

Fixpoint nullable (r : regex) : bool :=
  match r with
  | Void => false
  | Eps => true
  | Chr _ => false
  | Dot => false
  | Cat r s => nullable r && nullable s
  | Alt r s => nullable r || nullable s
  | Star _ => true
  end.

Fixpoint deriv (a : ascii) (r : regex) : regex :=
  match r with
  | Void => Void
  | Eps => Void
  | Chr c => if Ascii.eqb a c then Eps else Void
  | Dot => if Ascii.eqb a newline then Void else Eps
  | Cat r s =>
      if nullable r then Alt (Cat (deriv a r) s) (deriv a s)
      else Cat (deriv a r) s
  | Alt r s => Alt (deriv a r) (deriv a s)
  | Star r => Cat (deriv a r) (Star r)
  end.

Fixpoint re_match (r : regex) (s : string) : bool :=
  match s with
  | EmptyString => nullable r
  | String a s' => re_match (deriv a r) s'
  end.

Fixpoint Lit (s : string) : regex :=
  match s with
  | EmptyString => Eps
  | String a s' => Cat (Chr a) (Lit s')
  end.

(** [$] without [re.MULTILINE]: the end of the string, or just before a
    newline that is the last character. *)
Definition Eol : regex := Alt Eps (Chr newline).

(** [re.compile(r"^%COMBO\[(.*?,)*.*?\].*$")] *)
Definition _COMBO_TAG_REGEX : regex :=
  Cat (Lit "%COMBO[")
    (Cat (Star (Cat (Star Dot) (Chr ",")))
       (Cat (Star Dot)
          (Cat (Chr "]")
             (Cat (Star Dot) Eol)))).

(* ================================================================== *)
(** ** Builtins on numbers: [float], [int], [bool] *)

Definition prec : Z := 53.
Definition emax : Z := 1024.

(** [float(n)] for an [int]: the nearest binary64 value, ties to even;
    [OverflowError] when [n] is too large. *)
Definition float_of_int (n : Z) : result spec_float :=
  match binary_normalize prec emax n 0 false with
  | S754_infinity _ => Err OverflowError
  | f => Ok f
  end.

(** [int(f)] for a [float]: truncation towards zero; [OverflowError] on
    an infinity and [ValueError] on a NaN. *)
Definition int_of_float (f : spec_float) : result Z :=
  match f with
  | S754_zero _ => Ok 0
  | S754_infinity _ => Err OverflowError
  | S754_nan => Err ValueError
  | S754_finite s m e =>
      Ok (cond_Zopp s
            (match e with
             | Zneg p => Zpos m / 2 ^ Zpos p
             | _ => Zpos m * 2 ^ e
             end))
  end.

Definition float_of_bool (b : bool) : spec_float :=
  if b then S754_finite false 4503599627370496 (-52) else S754_zero false.

(** Truth value of an object, [bool(v)]. *)
Definition py_bool (v : pyval) : bool :=
  match v with
  | PNone => false
  | PBool b => b
  | PInt z => negb (z =? 0)
  | PFloat (S754_zero _) => false
  | PFloat _ => true
  | PStr s => negb (String.eqb s "")
  | PList l => match l with [] => false | _ => true end
  | PDict d => match d with [] => false | _ => true end
  end.

Definition isinstance_int (v : pyval) : bool :=
  match v with
  | PBool _ | PInt _ => true
  | _ => false
  end.

(** Modelled from the spec: the encoder of the settings transport is not
    part of [pipeline.py].  The spec has settings travel through a channel
    that carries numbers only, and [_to_value] documents its argument as
    the variable value as float, so the numeric encoding of a boolean, an
    integer or a float is [float(v)]. *)
Definition encode (v : pyval) : result pyval :=
  match v with
  | PBool b => Ok (PFloat (float_of_bool b))
  | PInt z => f <-r float_of_int z ;; Ok (PFloat f)
  | PFloat f => Ok (PFloat f)
  | _ => Err TypeError
  end.

(** [l[i]], raising [IndexError] out of range (indices from the front). *)
Definition list_item {A} (i : nat) (l : list A) : result A :=
  match nth_error l i with
  | Some a => Ok a
  | None => Err IndexError
  end.

(** [l[0] = v], raising [IndexError] on an empty list. *)
Definition list_set0 {A} (v : A) (l : list A) : result (list A) :=
  match l with
  | [] => Err IndexError
  | _ :: l' => Ok (v :: l')
  end.

(** A frame: a [numpy] array with its [shape] tuple and its elements. *)
Record ndarray : Type := mk_ndarray {
  shape : list Z;
  data : list Z
}.

(** What a frame callback may hand back: an array, or anything else. *)
Inductive pyobj : Type :=
| ObjArray (a : ndarray)
| ObjOther (v : pyval).

Definition shape_eqb (s1 s2 : list Z) : bool :=
  if list_eq_dec Z.eq_dec s1 s2 then true else false.

(** A settings entry is the list [[value, min, max, step, tooltip]]. *)
Definition var_list : Type := list pyval.
Definition settings_dict : Type := dict var_list.

(** A record of the [logging] calls made, in order, with the format string
    and its argument as the call received them. *)
Inductive log_arg : Type :=
| ArgStr (s : string)
| ArgExn (e : exn).

Inductive log_record : Type :=
| LogInfo (fmt : string) (arg : log_arg)
| LogError (fmt : string) (arg : log_arg).

Inductive Logger : Type := mk_Logger (logger_name : string).

(** Contents of a file as [json.load] sees it: text that does not decode,
    or the decoded value. *)
Inductive file_content : Type :=
| Malformed
| Json (v : pyval).

(** The part of the file system the module touches: [fs_read path] is
    [None] when [path] does not exist; [fs_writable path] tells whether
    [open(path, "w")] succeeds. *)
Record filesystem : Type := mk_fs {
  fs_read : string -> option file_content;
  fs_writable : string -> bool
}.

Definition fs_write (path : string) (c : file_content) (fs : filesystem)
  : filesystem :=
  {| fs_read := fun p => if String.eqb p path then Some c else fs_read fs p;
     fs_writable := fs_writable fs |}.

Definition _SETTINGS_FILE : string := "pyhook.json".
Definition _PIPELINE_DIRS : list string := ["./pipelines"; "./PyHook/pipelines"].

Definition backslash : string := String "092"%char EmptyString.
Definition dquote : string := String "034"%char EmptyString.

(** [f"{dir_path}\\{_SETTINGS_FILE}"] *)
Definition settings_path (dir_path : string) : string :=
  dir_path ++ backslash ++ _SETTINGS_FILE.

(* ================================================================== *)
(** ** The module *)

Section PyHook.

Set Default Proof Using "Type".

(** State owned by plugin code (module globals, models, buffers). *)
Variable U : Type.

(** Builtins whose text output or parsing is not spelled out here:
    [repr] of a float, [repr] of a list or dict, and [int(s)] for a
    string [s] ([None] when [s] is not an integer literal). *)
Variable repr_float : spec_float -> string.
Variable repr_container : pyval -> string.
Variable int_of_str : string -> option Z.

(** [str(v)] *)
Definition py_str (v : pyval) : string :=
  match v with
  | PNone => "None"
  | PBool true => "True"
  | PBool false => "False"
  | PInt z => NilZero.string_of_int (Z.to_int z)
  | PFloat f => repr_float f
  | PStr s => s
  | PList _ | PDict _ => repr_container v
  end.

(** [int(v)] *)
Definition py_int (v : pyval) : result Z :=
  match v with
  | PBool b => Ok (if b then 1 else 0)
  | PInt z => Ok z
  | PFloat f => int_of_float f
  | PStr s => match int_of_str s with
              | Some z => Ok z
              | None => Err ValueError
              end
  | PNone | PList _ | PDict _ => Err TypeError
  end.

(* ------------------------------------------------------------------ *)
(** *** [PipelineCallbacks]

    A callback runs plugin code: it sees the settings table of its
    pipeline (the plugin module and the [Pipeline] object share that one
    dictionary), may change it in place, and updates the plugin's own
    state.  It returns or raises. *)

Inductive cb_result (A : Type) : Type :=
| CbRet (a : A) (s : option settings_dict) (u : U)
| CbRaise (e : exn) (s : option settings_dict) (u : U).
Arguments CbRet {A} a s u.
Arguments CbRaise {A} e s u.

Definition frame_cb : Type :=
  ndarray -> Z -> Z -> Z -> option settings_dict -> U -> cb_result pyobj.
Definition unit_cb : Type :=
  option settings_dict -> U -> cb_result unit.
Definition settings_cb : Type :=
  string -> pyval -> option settings_dict -> U -> cb_result unit.

Record PipelineCallbacks : Type := mk_PipelineCallbacks {
  on_frame_process : frame_cb;
  on_load : option unit_cb;
  on_unload : option unit_cb;
  before_change_settings : option settings_cb;
  after_change_settings : option settings_cb
}.

(* ------------------------------------------------------------------ *)
(** *** [Pipeline] *)

Record Pipeline : Type := mk_Pipeline {
  path : string;
  file : string;
  name : pyval;
  callbacks : PipelineCallbacks;
  version : pyval;
  desc : pyval;
  settings : option settings_dict;
  mappings : dict Z
}.

Definition set_settings (s : option settings_dict) (p : Pipeline) : Pipeline :=
  {| path := path p; file := file p; name := name p;
     callbacks := callbacks p; version := version p; desc := desc p;
     settings := s; mappings := mappings p |}.

(** [Pipeline._to_internal_type(value, tooltip)]: [re.match] on a tooltip
    that is not a string raises [TypeError]. *)
Definition _to_internal_type (value tooltip : pyval) : result Z :=
  if str_in (py_str value) ["True"; "False"] then Ok 0
  else if isinstance_int value then
    match tooltip with
    | PStr t => if re_match _COMBO_TAG_REGEX t then Ok 3 else Ok 1
    | _ => Err TypeError
    end
  else Ok 2.

(** The dict comprehension of [__init__]:
    [{k: self._to_internal_type(v[0], v[4]) for k, v in settings.items()}] *)
Fixpoint build_mappings (items : settings_dict) (acc : dict Z)
  : result (dict Z) :=
  match items with
  | [] => Ok acc
  | (k, v) :: items' =>
      v0 <-r list_item 0 v ;;
      v4 <-r list_item 4 v ;;
      t <-r _to_internal_type v0 v4 ;;
      build_mappings items' (dict_set k t acc)
  end.

Variable basename : string -> string.

(** [Pipeline.__init__] *)
Definition Pipeline_init (path : string) (name : pyval)
    (callbacks : PipelineCallbacks) (version desc : pyval)
    (settings : option settings_dict) : result Pipeline :=
  m <-r match settings with
        | None => Ok []
        | Some s => build_mappings s []
        end ;;
  Ok {| path := path; file := basename path; name := name;
        callbacks := callbacks; version := version; desc := desc;
        settings := settings; mappings := m |}.

(** [Pipeline._to_value(key, value)] *)
Definition _to_value (self : Pipeline) (key : string) (value : pyval)
  : result pyval :=
  c <-r dict_item key (mappings self) ;;
  if c =? 0 then Ok (PBool (py_bool value))
  else
    c' <-r dict_item key (mappings self) ;;
    if (c' =? 1) then z <-r py_int value ;; Ok (PInt z)
    else
      c'' <-r dict_item key (mappings self) ;;
      if (c'' =? 3) then z <-r py_int value ;; Ok (PInt z)
      else Ok value.

(* ------------------------------------------------------------------ *)
(** *** Methods with effects

    A method runs on a world: the receiving pipeline (whose settings table
    it may update), the plugin's state, and a trace that records, in
    order, every settings callback entered, with the settings table as the
    callback found it, and every store into a settings entry. *)

Inductive event : Type :=
| Enter_before_change_settings
    (key : string) (value : pyval) (seen : option settings_dict)
| Enter_after_change_settings
    (key : string) (value : pyval) (seen : option settings_dict)
| Store_setting (key : string) (value : pyval).

Record world : Type := mk_world {
  w_self : Pipeline;
  w_user : U;
  w_trace : list event
}.

Inductive outcome (A : Type) : Type :=
| Done (a : A) (w : world)
| Raised (e : exn) (w : world).
Arguments Done {A} a w.
Arguments Raised {A} e w.

Definition M (A : Type) : Type := world -> outcome A.

Definition ret {A} (a : A) : M A := fun w => Done a w.
Definition raise {A} (e : exn) : M A := fun w => Raised e w.
Definition bind {A B} (m : M A) (k : A -> M B) : M B :=
  fun w => match m w with
           | Done a w' => k a w'
           | Raised e w' => Raised e w'
           end.
Definition lift {A} (r : result A) : M A :=
  match r with
  | Ok a => ret a
  | Err e => raise e
  end.

Notation "x <- c ;; k" := (bind c (fun x => k))
  (at level 61, c at next level, right associativity).
Notation "c ;;; k" := (bind c (fun _ => k))
  (at level 61, right associativity).

Definition get_self : M Pipeline := fun w => Done (w_self w) w.

Definition log_event (e : event) : M unit :=
  fun w => Done tt {| w_self := w_self w; w_user := w_user w;
                      w_trace := w_trace w ++ [e] |}.

(** Running plugin code from inside a method. *)
Definition invoke {A} (cb : option settings_dict -> U -> cb_result A) : M A :=
  fun w =>
    match cb (settings (w_self w)) (w_user w) with
    | CbRet a s u =>
        Done a {| w_self := set_settings s (w_self w); w_user := u;
                  w_trace := w_trace w |}
    | CbRaise e s u =>
        Raised e {| w_self := set_settings s (w_self w); w_user := u;
                    w_trace := w_trace w |}
    end.

(** [self.settings[key][0] = value], the right-hand side already
    evaluated: subscripting [None] raises [TypeError], a missing key
    [KeyError], an empty entry [IndexError]. *)
Definition store_setting (key : string) (value : pyval) : M unit :=
  fun w =>
    match settings (w_self w) with
    | None => Raised TypeError w
    | Some s =>
        match dict_get key s with
        | None => Raised KeyError w
        | Some entry =>
            match list_set0 value entry with
            | Err e => Raised e w
            | Ok entry' =>
                Done tt {| w_self := set_settings (Some (dict_set key entry' s))
                                       (w_self w);
                           w_user := w_user w;
                           w_trace := w_trace w ++ [Store_setting key value] |}
            end
        end
    end.

(** [Pipeline.change_settings(enabled, key, new_value)] *)
Definition change_settings (enabled : bool) (key : string) (new_value : pyval)
  : M unit :=
  self <- get_self ;;
  match enabled, before_change_settings (callbacks self) with
  | true, Some cb =>
      log_event (Enter_before_change_settings key new_value (settings self)) ;;;
      invoke (cb key new_value)
  | _, _ => ret tt
  end ;;;
  self <- get_self ;;
  v <- lift (_to_value self key new_value) ;;
  store_setting key v ;;;
  self <- get_self ;;
  match enabled, after_change_settings (callbacks self) with
  | true, Some cb =>
      log_event (Enter_after_change_settings key new_value (settings self)) ;;;
      invoke (cb key new_value)
  | _, _ => ret tt
  end.

(** [Pipeline.load()] *)
Definition load : M unit :=
  self <- get_self ;;
  match on_load (callbacks self) with
  | Some cb => invoke cb
  | None => ret tt
  end.

(** [Pipeline.process_frame(frame, width, height, frame_num)]: reading
    [.shape] of a returned object that is not an array raises
    [AttributeError]. *)
Definition process_frame (frame : ndarray) (width height frame_num : Z)
  : M ndarray :=
  let input_shape := shape frame in
  self <- get_self ;;
  out <- invoke (on_frame_process (callbacks self) frame width height frame_num) ;;
  match out with
  | ObjOther _ => raise AttributeError
  | ObjArray frame' =>
      let output_shape := shape frame' in
      if negb (shape_eqb input_shape output_shape)
      then raise FrameSizeModificationError
      else ret frame'
  end.

(** [Pipeline.unload()] *)
Definition unload : M unit :=
  self <- get_self ;;
  match on_unload (callbacks self) with
  | Some cb => invoke cb
  | None => ret tt
  end.

(* ------------------------------------------------------------------ *)
(** *** [PipelineRuntimeData] *)

Record PipelineRuntimeData : Type := mk_PipelineRuntimeData {
  pipeline_order : list string;
  active_pipelines : list string;
  to_unload : list string;
  to_load : list string;
  changes : dict (dict pyval)
}.

(* ------------------------------------------------------------------ *)
(** *** Loading plugin files *)

(** A plugin module after its top level has run: the attributes that
    [_build_pipeline] probes with [hasattr]. *)
Record py_module : Type := mk_py_module {
  m_on_frame_process : option frame_cb;
  m_on_load : option unit_cb;
  m_on_unload : option unit_cb;
  m_before_change_settings : option settings_cb;
  m_after_change_settings : option settings_cb;
  m_name : option pyval;
  m_version : option pyval;
  m_desc : option pyval;
  m_settings : option settings_dict
}.

Definition attr_or {A} (default : A) (attr : option A) : A :=
  match attr with
  | Some a => a
  | None => default
  end.

(** [_build_pipeline(module, name, path)] *)
Definition _build_pipeline (module : py_module) (name : string) (path : string)
  : result Pipeline :=
  match m_on_frame_process module with
  | None => Err ValueError
  | Some process =>
      let callbacks :=
        {| on_frame_process := process;
           on_load := m_on_load module;
           on_unload := m_on_unload module;
           before_change_settings := m_before_change_settings module;
           after_change_settings := m_after_change_settings module |} in
      Pipeline_init path
        (attr_or (PStr name) (m_name module))
        callbacks
        (attr_or (PStr "") (m_version module))
        (attr_or (PStr "") (m_desc module))
        (m_settings module)
  end.

(** The operating system and the import machinery: [os.path.isdir],
    [os.path.abspath], [glob.glob], and the three [importlib] steps that
    create a module for a file and run it, which give the module or the
    exception raised on the way.  The entry that the loop leaves in
    [sys.modules] is not part of the model: nothing in this module reads
    it. *)
Variable isdir : string -> bool.
Variable abspath : string -> string.
Variable glob : string -> list string.
Variable import_file : string -> string -> result py_module.

(** The first loop of [load_pipelines]: every candidate that is a
    directory overwrites [pipeline_dir]. *)
Fixpoint find_pipeline_dir (dirs : list string) (pipeline_dir : option string)
  : option string :=
  match dirs with
  | [] => pipeline_dir
  | path :: dirs' =>
      find_pipeline_dir dirs'
        (if isdir path then Some (abspath path) else pipeline_dir)
  end.

Definition log_to (logger : option Logger) (records : list log_record)
    (log : list log_record) : list log_record :=
  match logger with
  | Some _ => log ++ records
  | None => log
  end.

(** The statements of the [try] block that can raise: importing the file
    and building the pipeline. *)
Definition load_file (path : string) : result Pipeline :=
  let module_name := drop_last3 (basename path) in
  module <-r import_file module_name path ;;
  _build_pipeline module module_name path.

Definition loaded_records (path : string) : list log_record :=
  [LogInfo ("-- Loaded pipeline: " ++ dquote ++ "%s" ++ dquote ++ ".")
     (ArgStr path)].

Definition failed_records (path : string) (ex : exn) : list log_record :=
  [LogError ("-- Cannot load pipeline file " ++ dquote ++ "%s" ++ dquote ++ ".")
     (ArgStr path);
   LogError "--- Error: %s" (ArgExn ex)].

(** The second loop of [load_pipelines]: [except Exception] handles the
    exceptions that derive from [Exception]; any other one leaves the
    function. *)
Fixpoint scan_files (logger : option Logger) (pipeline_files : list string)
    (pipelines : dict Pipeline) (log : list log_record)
  : result (dict Pipeline) * list log_record :=
  match pipeline_files with
  | [] => (Ok pipelines, log)
  | path :: rest =>
      match load_file path with
      | Ok pipeline =>
          scan_files logger rest
            (dict_set (file pipeline) pipeline pipelines)
            (log_to logger (loaded_records path) log)
      | Err ex =>
          if isinstance_Exception ex then
            scan_files logger rest pipelines
              (log_to logger (failed_records path ex) log)
          else (Err ex, log)
      end
  end.

(** [load_pipelines(logger)] *)
Definition load_pipelines (logger : option Logger)
  : result (dict Pipeline) * list log_record :=
  match find_pipeline_dir _PIPELINE_DIRS None with
  | None => (Err PipelinesDirNotFoundError, [])
  | Some pipeline_dir =>
      scan_files logger (glob (pipeline_dir ++ "/*.py")) [] []
  end.

(* ------------------------------------------------------------------ *)
(** *** Saving and loading settings *)

(** The inner loop of [save_settings]: [settings[p_file][key] = var_list[0]] *)
Fixpoint save_values (items : settings_dict) (acc : dict pyval)
  : result (dict pyval) :=
  match items with
  | [] => Ok acc
  | (key, entry) :: items' =>
      v <-r list_item 0 entry ;;
      save_values items' (dict_set key v acc)
  end.

(** The outer loop of [save_settings]. *)
Fixpoint save_pipelines (items : dict Pipeline) (acc : dict pyval)
  : result (dict pyval) :=
  match items with
  | [] => Ok acc
  | (p_file, pipeline) :: items' =>
      match settings pipeline with
      | Some s =>
          block <-r save_values s [] ;;
          save_pipelines items' (dict_set p_file (PDict block) acc)
      | None => save_pipelines items' acc
      end
  end.

(** [save_settings(pipelines, order, active, dir_path)]: the record is
    built first, then the file is opened for writing and replaced. *)
Definition save_settings (pipelines : dict Pipeline) (order active : list string)
    (dir_path : string) (fs : filesystem) : result filesystem :=
  let record0 :=
    dict_set "active" (PList (map PStr active))
      (dict_set "order" (PList (map PStr order)) []) in
  record <-r save_pipelines pipelines record0 ;;
  if fs_writable fs (settings_path dir_path)
  then Ok (fs_write (settings_path dir_path) (Json (PDict record)) fs)
  else Err OSError.

(** The inner loop of [load_settings]: a persisted value replaces the
    first element of the entry of a key the plugin still declares.  An
    exception leaves the table as the loop had changed it so far. *)
Fixpoint apply_values (items : dict pyval) (s : settings_dict)
  : settings_dict * option exn :=
  match items with
  | [] => (s, None)
  | (key, value) :: items' =>
      match dict_get key s with
      | Some entry =>
          match list_set0 value entry with
          | Ok entry' => apply_values items' (dict_set key entry' s)
          | Err e => (s, Some e)
          end
      | None => apply_values items' s
      end
  end.

(** The outer loop of [load_settings]: [p_settings.items()] on a value
    that is not a dict raises [AttributeError]. *)
Fixpoint apply_settings (items : dict pyval) (pipelines : dict Pipeline)
  : dict Pipeline * option exn :=
  match items with
  | [] => (pipelines, None)
  | (p_file, p_settings) :: items' =>
      if str_in p_file ["order"; "active"] then apply_settings items' pipelines
      else
        match dict_get p_file pipelines with
        | Some pipeline =>
            match settings pipeline with
            | Some s =>
                match p_settings with
                | PDict kv =>
                    let (s', err) := apply_values kv s in
                    let pipelines' :=
                      dict_set p_file (set_settings (Some s') pipeline)
                        pipelines in
                    match err with
                    | None => apply_settings items' pipelines'
                    | Some e => (pipelines', Some e)
                    end
                | _ => (pipelines, Some AttributeError)
                end
            | None => apply_settings items' pipelines
            end
        | None => apply_settings items' pipelines
        end
  end.

(** Iterating over a value in a comprehension: the elements of a list,
    the characters of a string, the keys of a dict; [TypeError] for a
    value that is not iterable. *)
Definition py_iter (v : pyval) : result (list pyval) :=
  match v with
  | PList l => Ok l
  | PStr s => Ok (map PStr (chars s))
  | PDict d => Ok (map PStr (dict_keys d))
  | _ => Err TypeError
  end.

(** [p in pipelines] for an element [p] of the persisted list: a list or
    a dict cannot be hashed ([TypeError]); a value that is not a string
    is no key.  The answer carries the key when it is one. *)
Definition in_pipelines (p : pyval) (pipelines : dict Pipeline)
  : result (option string) :=
  match p with
  | PStr s => Ok (if dict_mem s pipelines then Some s else None)
  | PList _ | PDict _ => Err TypeError
  | _ => Ok None
  end.

(** [[p for p in l if p in pipelines]] *)
Fixpoint keep_loaded (l : list pyval) (pipelines : dict Pipeline)
  : result (list string) :=
  match l with
  | [] => Ok []
  | p :: l' =>
      k <-r in_pipelines p pipelines ;;
      rest <-r keep_loaded l' pipelines ;;
      Ok (match k with
          | Some s => s :: rest
          | None => rest
          end)
  end.

Definition is_str (s : string) (v : pyval) : bool :=
  match v with
  | PStr s' => String.eqb s s'
  | _ => false
  end.

(** [p in container] for a key [p]: equality with an element of a list,
    occurrence in a string, membership among the keys of a dict. *)
Definition py_contains (p : string) (container : pyval) : result bool :=
  match container with
  | PList l => Ok (existsb (is_str p) l)
  | PStr s => Ok (is_substring p s)
  | PDict d => Ok (dict_mem p d)
  | _ => Err TypeError
  end.

(** [[p for p in pipelines.keys() if p not in settings["order"]]] *)
Fixpoint keep_new (keys : list string) (persisted : pyval)
  : result (list string) :=
  match keys with
  | [] => Ok []
  | p :: keys' =>
      b <-r py_contains p persisted ;;
      rest <-r keep_new keys' persisted ;;
      Ok (if b then rest else p :: rest)
  end.

(** What [load_settings] leaves behind: the runtime data and the flag, or
    an exception; either way the pipelines as the call has changed them. *)
Inductive load_result : Type :=
| Loaded (pipelines : dict Pipeline) (data : PipelineRuntimeData)
    (from_file : bool)
| LoadFailed (e : exn) (pipelines : dict Pipeline).

(** The two comprehensions and the runtime data built from them.  In
    Python [active_pipelines] and [to_load] are one list object; here they
    are equal values, which is all that [load_settings] itself shows. *)
Definition reconcile (record : dict pyval) (pipelines : dict Pipeline)
  : result PipelineRuntimeData :=
  persisted_order <-r dict_item "order" record ;;
  l <-r py_iter persisted_order ;;
  kept <-r keep_loaded l pipelines ;;
  fresh <-r keep_new (dict_keys pipelines) persisted_order ;;
  let order := (kept ++ fresh)%list in
  persisted_active <-r dict_item "active" record ;;
  l' <-r py_iter persisted_active ;;
  active <-r keep_loaded l' pipelines ;;
  Ok {| pipeline_order := order; active_pipelines := active;
        to_unload := []; to_load := active; changes := [] |}.

(** [load_settings(pipelines, dir_path)] *)
Definition load_settings (pipelines : dict Pipeline) (dir_path : string)
    (fs : filesystem) : load_result :=
  match fs_read fs (settings_path dir_path) with
  | Some content =>
      match content with
      | Malformed => LoadFailed JSONDecodeError pipelines
      | Json (PDict record) =>
          let (pipelines', err) := apply_settings record pipelines in
          match err with
          | Some e => LoadFailed e pipelines'
          | None =>
              match reconcile record pipelines' with
              | Ok data => Loaded pipelines' data true
              | Err e => LoadFailed e pipelines'
              end
          end
      | Json _ => LoadFailed AttributeError pipelines
      end
  | None =>
      Loaded pipelines
        {| pipeline_order := dict_keys pipelines; active_pipelines := [];
           to_unload := []; to_load := []; changes := [] |}
        false
  end.

(* ------------------------------------------------------------------ *)
(** *** Vocabulary of the statements *)


(** The internally typed value, after the codes as [_to_internal_type]
    documents them (0 - bool, 1 - int, 2 - float, 3 - int shown as a combo
    box): [bool(value)] for code 0, [int(value)] for codes 1 and 3, and
    the value as it is for a float.  It is compared with [_to_value] in
    the properties of [change_settings]. *)
Definition internally_typed (c : Z) (value : pyval) : result pyval :=
  if c =? 0 then Ok (PBool (py_bool value))
  else if (c =? 1) || (c =? 3) then z <-r py_int value ;; Ok (PInt z)
  else Ok value.


(** Following the spec's words: the first candidate that is a directory. *)
Definition first_existing_dir (dirs : list string) : option string :=
  match find isdir dirs with
  | Some path => Some (abspath path)
  | None => None
  end.

(** The pipelines of the files that load, in scan order. *)
Definition loaded_from (files : list string) : list Pipeline :=
  flat_map (fun path => match load_file path with
                        | Ok pipeline => [pipeline]
                        | Err _ => []
                        end) files.

(** The log records of a scan with a logger. *)
Definition records_of (files : list string) : list log_record :=
  flat_map (fun path => match load_file path with
                        | Ok _ => loaded_records path
                        | Err ex => failed_records path ex
                        end) files.

Definition insert_all (ps : list Pipeline) (acc : dict Pipeline)
  : dict Pipeline :=
  fold_left (fun d p => dict_set (file p) p d) ps acc.

(** Every settings entry holds at least its value: [__init__] has read
    the fifth element of each. *)
Definition entries_nonempty (s : settings_dict) : Prop :=
  forall key entry, In (key, entry) s -> entry <> [].

Definition pipelines_nonempty (pipelines : dict Pipeline) : Prop :=
  forall f p s, In (f, p) pipelines -> settings p = Some s ->
                entries_nonempty s.

(** Besides [order] and [active], the record maps file names to dicts. *)
Definition blocks_are_dicts (record : dict pyval) : Prop :=
  forall k v, In (k, v) record -> k <> "order" -> k <> "active" ->
              exists d, v = PDict d.

(** What [save_settings] writes for one settings table: each key with the
    first element of its entry. *)
Definition saved_block (s : settings_dict) : dict pyval :=
  map (fun kv => (fst kv, hd PNone (snd kv))) s.

Definition saved_blocks (pipelines : dict Pipeline) : dict pyval :=
  flat_map (fun fp => match settings (snd fp) with
                      | Some s => [(fst fp, PDict (saved_block s))]
                      | None => []
                      end) pipelines.

Definition saved_record (pipelines : dict Pipeline) (order active : list string)
  : dict pyval :=
  ("order", PList (map PStr order)) ::
  ("active", PList (map PStr active)) :: saved_blocks pipelines.

(** Two entries that differ at most in the current value. *)
Definition entry_agree (e e' : var_list) : Prop :=
  e <> [] /\ e' <> [] /\ tl e = tl e'.

Definition settings_agree (s s' : settings_dict) : Prop :=
  Forall2 (fun a b => fst a = fst b /\ entry_agree (snd a) (snd b)) s s'.

(** Two pipelines that differ at most in the current values of their
    settings: the same plugin, loaded again. *)
Definition pipeline_agree (p p' : Pipeline) : Prop :=
  set_settings None p = set_settings None p' /\
  match settings p, settings p' with
  | Some s, Some s' => settings_agree s s'
  | None, None => True
  | _, _ => False
  end.

Definition pipelines_agree (ps ps' : dict Pipeline) : Prop :=
  Forall2 (fun a b => fst a = fst b /\ pipeline_agree (snd a) (snd b)) ps ps'.

(** A loaded pipeline map: distinct file names, none of them [order] or
    [active] (they end in [.py]), and distinct keys in each settings
    table. *)
Definition loaded_map (ps : dict Pipeline) : Prop :=
  NoDup (dict_keys ps) /\
  (forall f, In f (dict_keys ps) -> f <> "order" /\ f <> "active") /\
  (forall f p s, In (f, p) ps -> settings p = Some s -> NoDup (dict_keys s)).

(** The language of a regular expression: the strings it matches. *)
Inductive matches : regex -> string -> Prop :=
| M_Eps : matches Eps ""
| M_Chr (c : ascii) : matches (Chr c) (String c "")
| M_Dot (c : ascii) : c <> newline -> matches Dot (String c "")
| M_Cat (r s : regex) (u v : string) :
    matches r u -> matches s v -> matches (Cat r s) (u ++ v)
| M_AltL (r s : regex) (u : string) : matches r u -> matches (Alt r s) u
| M_AltR (r s : regex) (u : string) : matches s u -> matches (Alt r s) u
| M_Star0 (r : regex) : matches (Star r) ""
| M_StarS (r : regex) (u v : string) :
    matches r u -> matches (Star r) v -> matches (Star r) (u ++ v).

Fixpoint no_newline (s : string) : bool :=
  match s with
  | EmptyString => true
  | String c s' => negb (Ascii.eqb c newline) && no_newline s'
  end.

Definition nl : string := String newline "".

(** The text of a combo tooltip: [%COMBO[], options, []], a label, and
    possibly one final newline. *)
Definition combo_text (a b : string) (final_newline : bool) : string :=
  "%COMBO[" ++ a ++ "]" ++ b ++ (if final_newline then nl else "").

(** The candidates of [load_pipelines], for any list of them: the last
    one that is a directory. *)
Definition last_existing_dir (dirs : list string) : option string :=
  match find isdir (rev dirs) with
  | Some d => Some (abspath d)
  | None => None
  end.

(** What [__init__] needs of a settings entry: a first and a fifth
    element, and a string as fifth element when the first is an integer
    that does not print as a boolean. *)
Definition entry_valid (entry : var_list) : bool :=
  match nth_error entry 0, nth_error entry 4 with
  | Some v0, Some v4 =>
      str_in (py_str v0) ["True"; "False"] || negb (isinstance_int v0) ||
      match v4 with
      | PStr _ => true
      | _ => false
      end
  | _, _ => false
  end.

Definition settings_valid (s : option settings_dict) : bool :=
  match s with
  | Some items => forallb (fun kv => entry_valid (snd kv)) items
  | None => true
  end.

(** The world of an outcome. *)
Definition world_of {A} (o : outcome A) : world :=
  match o with
  | Done _ w => w
  | Raised _ w => w
  end.

(** The pipelines that [load_settings] leaves. *)
Definition pipelines_of (r : load_result) : dict Pipeline :=
  match r with
  | Loaded ps _ _ => ps
  | LoadFailed _ ps => ps
  end.

(** A block that changes nothing: it names no loaded plugin, or a plugin
    without settings, or a dict of setting keys that the plugin does not
    declare. *)
Definition block_ignored (ps : dict Pipeline) (f : string) (v : pyval)
  : Prop :=
  f = "order" \/ f = "active" \/ dict_get f ps = None \/
  exists p, dict_get f ps = Some p /\
    (settings p = None \/
     exists s kv, settings p = Some s /\ v = PDict kv /\
       forall key, In key (dict_keys kv) -> dict_get key s = None).

(** A value that a comprehension cannot iterate over. *)
Definition not_iterable (v : pyval) : bool :=
  match v with
  | PNone | PBool _ | PInt _ | PFloat _ => true
  | _ => false
  end.

(** A value that cannot be looked up in a dict. *)
Definition unhashable (v : pyval) : bool :=
  match v with
  | PList _ | PDict _ => true
  | _ => false
  end.

(** A table that already holds the values of a block. *)
Definition block_applied (kv : dict pyval) (s : settings_dict) : Prop :=
  forall key value e,
    In (key, value) kv -> dict_get key s = Some e ->
    exists tl, e = value :: tl.

(** Pipelines that already hold the values of a record. *)
Definition record_applied (record : dict pyval) (ps : dict Pipeline) : Prop :=
  forall f kv p s,
    In (f, PDict kv) record -> str_in f ["order"; "active"] = false ->
    dict_get f ps = Some p -> settings p = Some s ->
    block_applied kv s.

(** A statement that does not mention a parameter of the section is
    proved without it. *)
Ltac forget_unused :=
  try clear import_file; try clear glob; try clear abspath; try clear isdir;
  try clear basename; try clear int_of_str; try clear repr_container;
  try clear repr_float; try clear U.

(* ================================================================== *)
(** ** Properties *)

Local Open Scope list_scope.

(* ------------------------------------------------------------------ *)
(** *** Integers through binary64

    An integer of at most 53 bits is a binary64 value: [float] keeps it
    and [int] gives it back. *)










(* ------------------------------------------------------------------ *)
(** *** Dictionaries *)

Lemma dict_get_set_same {V} (k : string) (v : V) (d : dict V) :
  dict_get k (dict_set k v d) = Some v.
Proof.
  induction d as [|[k' v'] d IH]; simpl.
  - now rewrite String.eqb_refl.
  - destruct (String.eqb k k') eqn:E; simpl; rewrite ?String.eqb_refl, ?E;
      auto.
Qed.

Lemma dict_get_set_other {V} (k k' : string) (v : V) (d : dict V) :
  k <> k' -> dict_get k (dict_set k' v d) = dict_get k d.
Proof.
  intros Hne. induction d as [|[k0 v0] d IH]; simpl.
  - apply String.eqb_neq in Hne. now rewrite Hne.
  - destruct (String.eqb k' k0) eqn:E; simpl.
    + apply String.eqb_eq in E. subst k0.
      apply String.eqb_neq in Hne. now rewrite Hne.
    + now rewrite IH.
Qed.

Lemma dict_keys_set_present {V} (k : string) (v : V) (d : dict V) :
  dict_get k d <> None -> dict_keys (dict_set k v d) = dict_keys d.
Proof.
  unfold dict_keys. induction d as [|[k' v'] d IH]; simpl; intros H.
  - congruence.
  - destruct (String.eqb k k') eqn:E; simpl.
    + apply String.eqb_eq in E. now subst.
    + now rewrite IH.
Qed.

Lemma dict_get_None {V} (k : string) (d : dict V) :
  dict_get k d = None <-> ~ In k (dict_keys d).
Proof.
  forget_unused.
  unfold dict_keys. induction d as [|[k' v'] d IH]; simpl.
  - tauto.
  - destruct (String.eqb k k') eqn:E.
    + apply String.eqb_eq in E. subst. split; [discriminate | tauto].
    + apply String.eqb_neq in E. rewrite IH. split; intros H.
      * intros [H1 | H1]; [congruence | tauto].
      * tauto.
Qed.

Lemma dict_mem_In {V} (k : string) (d : dict V) :
  dict_mem k d = true <-> In k (dict_keys d).
Proof.
  forget_unused.
  unfold dict_mem. destruct (dict_get k d) eqn:E.
  - split; [intros _ | reflexivity].
    destruct (in_dec string_dec k (dict_keys d)) as [H | H]; [exact H |].
    apply dict_get_None in H. congruence.
  - split; [discriminate |]. intros H. apply dict_get_None in E. tauto.
Qed.

(* ------------------------------------------------------------------ *)
(** *** Type inference for settings *)

Lemma string_of_uint_not_bool (d : Decimal.uint) :
  str_in (NilZero.string_of_uint d) ["True"; "False"] = false.
Proof.
  destruct d; reflexivity.
Qed.

(** The text of an integer starts with a digit or a minus sign. *)
Lemma str_int_not_bool (z : Z) :
  str_in (py_str (PInt z)) ["True"; "False"] = false.
Proof.
  unfold py_str, NilZero.string_of_int.
  destruct (Z.to_int z) as [d | d].
  - apply string_of_uint_not_bool.
  - reflexivity.
Qed.

Lemma str_in_bool_names (s : string) :
  str_in s ["True"; "False"] = true <-> s = "True" \/ s = "False".
Proof.
  unfold str_in. cbn [existsb].
  rewrite orb_false_r, orb_true_iff, !String.eqb_eq. reflexivity.
Qed.

(** C5: type codes in priority order.  A default whose text is [True] or
    [False] has code 0 whatever the tooltip is (any object, not only a
    string); an integer default has code 3 when its tooltip matches
    [_COMBO_TAG_REGEX] and code 1 when it does not; any other default has
    code 2. *)
Theorem to_internal_type_priority :
  (forall value tooltip,
      py_str value = "True" \/ py_str value = "False" ->
      _to_internal_type value tooltip = Ok 0) /\
  (forall z t,
      re_match _COMBO_TAG_REGEX t = true ->
      _to_internal_type (PInt z) (PStr t) = Ok 3) /\
  (forall z t,
      re_match _COMBO_TAG_REGEX t = false ->
      _to_internal_type (PInt z) (PStr t) = Ok 1) /\
  (forall value tooltip,
      py_str value <> "True" -> py_str value <> "False" ->
      isinstance_int value = false ->
      _to_internal_type value tooltip = Ok 2).
Proof.
  repeat split.
  - intros value tooltip H. unfold _to_internal_type.
    apply str_in_bool_names in H. now rewrite H.
  - intros z t H. unfold _to_internal_type.
    rewrite str_int_not_bool. simpl. now rewrite H.
  - intros z t H. unfold _to_internal_type.
    rewrite str_int_not_bool. simpl. now rewrite H.
  - intros value tooltip HT HF Hint. unfold _to_internal_type.
    destruct (str_in (py_str value) ["True"; "False"]) eqn:E.
    + apply str_in_bool_names in E. tauto.
    + now rewrite Hint.
Qed.

(* ------------------------------------------------------------------ *)
(** *** The settings codec *)

Ltac inv_rbind H :=
  match type of H with
  | rbind ?c _ = Ok _ =>
      let E := fresh "E" in
      destruct c eqn:E; simpl in H; [|discriminate H]
  end.



Lemma to_value_code (self : Pipeline) (key : string) (value : pyval) (c : Z) :
  dict_get key (mappings self) = Some c ->
  _to_value self key value =
    if c =? 0 then Ok (PBool (py_bool value))
    else if (c =? 1) || (c =? 3) then z <-r py_int value ;; Ok (PInt z)
    else Ok value.
Proof.
  intros H. unfold _to_value, dict_item. rewrite H. simpl.
  destruct (c =? 0); [reflexivity|].
  destruct (c =? 1); [reflexivity|]. now destruct (c =? 3).
Qed.




(* ------------------------------------------------------------------ *)
(** *** Frame processing *)

Lemma shape_eqb_eq (s1 s2 : list Z) : shape_eqb s1 s2 = true <-> s1 = s2.
Proof.
  unfold shape_eqb. destruct (list_eq_dec Z.eq_dec s1 s2); split; congruence.
Qed.

(** C4, amended: when the plugin's callback returns an array,
    [process_frame] raises [FrameSizeModificationError] exactly when the
    shape of that array differs from the shape of the input frame, and then
    gives the caller no frame; when the shapes agree it returns the
    plugin's array.  The exception has no field: nothing about the plugin
    is stated here, or could be. *)
Theorem process_frame_shape_check
    (w : world) (frame : ndarray) (width height frame_num : Z)
    (out : ndarray) (s : option settings_dict) (u : U) :
  on_frame_process (callbacks (w_self w)) frame width height frame_num
    (settings (w_self w)) (w_user w) = CbRet (ObjArray out) s u ->
  let w' := {| w_self := set_settings s (w_self w); w_user := u;
               w_trace := w_trace w |} in
  (process_frame frame width height frame_num w
     = Raised FrameSizeModificationError w'
   <-> shape out <> shape frame) /\
  (shape out <> shape frame ->
   forall a w'', process_frame frame width height frame_num w <> Done a w'') /\
  (shape out = shape frame ->
   process_frame frame width height frame_num w = Done out w').
Proof.
  intros Hcb w'.
  assert (Hrun : process_frame frame width height frame_num w =
                 if negb (shape_eqb (shape frame) (shape out))
                 then Raised FrameSizeModificationError w'
                 else Done out w').
  { unfold process_frame, bind, get_self, invoke. rewrite Hcb.
    unfold raise, ret. now destruct (shape_eqb (shape frame) (shape out)). }
  rewrite Hrun.
  destruct (shape_eqb (shape frame) (shape out)) eqn:E; simpl.
  - apply shape_eqb_eq in E. symmetry in E. split; [|split].
    + split; [discriminate | intros Hne; contradiction].
    + intros Hne. contradiction.
    + reflexivity.
  - assert (Hne : shape out <> shape frame).
    { intros Heq. symmetry in Heq. apply shape_eqb_eq in Heq. congruence. }
    split; [|split].
    + split; [auto | reflexivity].
    + intros _ a w''. discriminate.
    + intros Heq. contradiction.
Qed.

(* ------------------------------------------------------------------ *)
(** *** Changing a setting *)

Lemma set_settings_self (p : Pipeline) : set_settings (settings p) p = p.
Proof. now destruct p. Qed.

Lemma to_value_set_settings (self : Pipeline) (s : option settings_dict)
    (key : string) (value : pyval) :
  _to_value (set_settings s self) key value = _to_value self key value.
Proof. reflexivity. Qed.

(** C7: [change_settings] enters [before_change_settings(key, new_value)]
    on the settings as they were, then stores the decoded value as the
    first element of the entry of [key], then enters
    [after_change_settings(key, new_value)], which finds the stored value;
    a callback is entered only when [enabled] is true and the callback is
    present.  The decoded value [v] is the internally typed one: with [c]
    the code of [key], [bool(new_value)] for 0, [int(new_value)] for 1
    and 3, [new_value] itself otherwise.  [wb] is the world after the
    first step. *)
Theorem change_settings_order
    (w wb : world) (enabled : bool) (key : string) (new_value v : pyval)
    (c : Z) (sb : settings_dict) (old : pyval) (rest : list pyval) :
  let self := w_self w in
  dict_get key (mappings self) = Some c ->
  internally_typed c new_value = Ok v ->
  match enabled, before_change_settings (callbacks self) with
  | true, Some cb =>
      exists s u,
        cb key new_value (settings self) (w_user w) = CbRet tt s u /\
        wb = {| w_self := set_settings s self; w_user := u;
                w_trace := w_trace w ++
                  [Enter_before_change_settings key new_value (settings self)] |}
  | _, _ => wb = w
  end ->
  settings (w_self wb) = Some sb ->
  dict_get key sb = Some (old :: rest) ->
  let stored := Some (dict_set key (v :: rest) sb) in
  let trace := (w_trace wb ++ [Store_setting key v])%list in
  change_settings enabled key new_value w =
    match enabled, after_change_settings (callbacks self) with
    | true, Some cb =>
        let trace' :=
          (trace ++ [Enter_after_change_settings key new_value stored])%list in
        match cb key new_value stored (w_user wb) with
        | CbRet _ s u =>
            Done tt {| w_self := set_settings s self; w_user := u;
                       w_trace := trace' |}
        | CbRaise e s u =>
            Raised e {| w_self := set_settings s self; w_user := u;
                        w_trace := trace' |}
        end
    | _, _ =>
        Done tt {| w_self := set_settings stored self; w_user := w_user wb;
                   w_trace := trace |}
    end.
Proof.
  intros self Hc Hv Hbefore Hsb Hkey stored trace.
  unfold internally_typed in Hv.
  rewrite <- (to_value_code self key new_value c Hc) in Hv.
  assert (Hself : w_self wb = set_settings (Some sb) self).
  { rewrite <- Hsb. subst self.
    destruct enabled; [|now subst wb; rewrite set_settings_self].
    destruct (before_change_settings (callbacks (w_self w))) as [cb|];
      [|now subst wb; rewrite set_settings_self].
    destruct Hbefore as (s & u & _ & ->). reflexivity. }
  assert (Hstep : forall k : unit -> M unit,
    bind (match enabled, before_change_settings (callbacks self) with
          | true, Some cb =>
              bind (log_event (Enter_before_change_settings key
                                new_value (settings self)))
                   (fun _ => invoke (cb key new_value))
          | _, _ => ret tt
          end) k w = k tt wb).
  { intros k. unfold bind at 1. subst self. destruct enabled.
    - destruct (before_change_settings (callbacks (w_self w))) as [cb|].
      + destruct Hbefore as (s & u & Hcb & ->).
        unfold bind, log_event, invoke. simpl. now rewrite Hcb.
      + now subst wb.
    - now subst wb. }
  unfold change_settings. unfold bind at 1. unfold get_self at 1.
  fold self. rewrite Hstep.
  destruct wb as [pb ub tb]. simpl in Hself. subst pb.
  unfold bind, get_self, lift, store_setting. simpl.
  rewrite to_value_set_settings. fold self. rewrite Hv.
  unfold ret. simpl. rewrite Hkey. simpl.
  fold stored.
  subst trace. simpl.
  destruct enabled; [|reflexivity].
  destruct (after_change_settings (callbacks self)) as [cb|]; [|reflexivity].
  unfold log_event, invoke. simpl.
  destruct (cb key new_value stored ub) as [[] s u | e s u]; reflexivity.
Qed.

(** C10: with a key that has no mapping, [change_settings] still runs
    [before_change_settings] when [enabled] is true and the callback is
    present, and then raises [KeyError] from [_to_value]: the world it
    leaves is the one the callback left, its trace ends with the entry into
    that callback, with no store and no entry into
    [after_change_settings]. *)
Theorem change_settings_unknown_key
    (w : world) (enabled : bool) (key : string) (new_value : pyval) :
  dict_get key (mappings (w_self w)) = None ->
  (forall cb s u,
      before_change_settings (callbacks (w_self w)) = Some cb ->
      cb key new_value (settings (w_self w)) (w_user w) = CbRet tt s u ->
      change_settings true key new_value w =
        Raised KeyError
          {| w_self := set_settings s (w_self w); w_user := u;
             w_trace := w_trace w ++
               [Enter_before_change_settings key new_value
                  (settings (w_self w))] |}) /\
  (enabled = false \/ before_change_settings (callbacks (w_self w)) = None ->
   change_settings enabled key new_value w = Raised KeyError w).
Proof.
  intros Hkey. split.
  - intros cb s u Hcb Hret.
    unfold change_settings, bind, get_self. rewrite Hcb.
    unfold log_event, invoke. simpl. rewrite Hret.
    unfold _to_value, dict_item. simpl. rewrite Hkey. reflexivity.
  - intros Hoff.
    unfold change_settings, bind, get_self.
    assert (Hskip :
      match enabled, before_change_settings (callbacks (w_self w)) with
      | true, Some cb =>
          bind (log_event (Enter_before_change_settings key new_value
                             (settings (w_self w))))
               (fun _ => invoke (cb key new_value))
      | _, _ => ret tt
      end = ret tt).
    { destruct Hoff as [-> | ->]; [reflexivity | now destruct enabled]. }
    unfold bind in Hskip. rewrite Hskip. unfold ret.
    unfold _to_value, dict_item. rewrite Hkey. reflexivity.
Qed.

(* ------------------------------------------------------------------ *)
(** *** The pipelines directory *)

Lemma find_pipeline_dir_candidates :
  find_pipeline_dir _PIPELINE_DIRS None =
    if isdir "./PyHook/pipelines" then Some (abspath "./PyHook/pipelines")
    else if isdir "./pipelines" then Some (abspath "./pipelines")
    else None.
Proof.
  simpl. destruct (isdir "./PyHook/pipelines"), (isdir "./pipelines");
    reflexivity.
Qed.

(** C1, amended: [load_pipelines] takes as pipelines root the last
    candidate of [["./pipelines", "./PyHook/pipelines"]] that is a
    directory, and scans the files that [glob] finds there; when no
    candidate is a directory it raises [PipelinesDirNotFoundError], having
    loaded and logged nothing. *)
Theorem load_pipelines_root (logger : option Logger) :
  load_pipelines logger =
    if isdir "./PyHook/pipelines" then
      scan_files logger (glob (abspath "./PyHook/pipelines" ++ "/*.py")%string) [] []
    else if isdir "./pipelines" then
      scan_files logger (glob (abspath "./pipelines" ++ "/*.py")%string) [] []
    else (Err PipelinesDirNotFoundError, []).
Proof.
  unfold load_pipelines. rewrite find_pipeline_dir_candidates.
  destruct (isdir "./PyHook/pipelines"), (isdir "./pipelines"); reflexivity.
Qed.

(* ------------------------------------------------------------------ *)
(** *** Loading settings: no file *)

(** C2, amended: when the settings file does not exist, [load_settings]
    returns the runtime data with all loaded keys in discovery order,
    nothing active, nothing to load or unload, no changes, and the flag
    [False]; the pipelines keep their settings. *)
Theorem load_settings_no_file
    (pipelines : dict Pipeline) (dir_path : string) (fs : filesystem) :
  fs_read fs (settings_path dir_path) = None ->
  load_settings pipelines dir_path fs =
    Loaded pipelines
      {| pipeline_order := dict_keys pipelines; active_pipelines := [];
         to_unload := []; to_load := []; changes := [] |}
      false.
Proof.
  intros H. unfold load_settings. now rewrite H.
Qed.

(* ------------------------------------------------------------------ *)
(** *** Scanning the plugin files *)

Lemma log_to_app (logger : option Logger) (a b log : list log_record) :
  log_to logger b (log_to logger a log) = log_to logger (a ++ b) log.
Proof.
  destruct logger; simpl; [now rewrite app_assoc | reflexivity].
Qed.

Lemma scan_files_caught (logger : option Logger) (files : list string) :
  forall acc log,
  (forall path e, In path files -> load_file path = Err e ->
                  isinstance_Exception e = true) ->
  scan_files logger files acc log =
    (Ok (insert_all (loaded_from files) acc),
     log_to logger (records_of files) log).
Proof.
  induction files as [|path files IH]; intros acc log Hexc.
  - unfold log_to. destruct logger; simpl; rewrite ?app_nil_r; reflexivity.
  - cbn [scan_files loaded_from records_of flat_map].
    destruct (load_file path) as [pipeline | ex] eqn:E.
    + rewrite IH by (intros; eapply Hexc; [right|]; eauto).
      unfold insert_all. simpl. now rewrite log_to_app.
    + rewrite (Hexc path ex (or_introl eq_refl) E).
      rewrite IH by (intros; eapply Hexc; [right|]; eauto).
      simpl. now rewrite log_to_app.
Qed.

Lemma In_dict_set {V} (k k' : string) (v v' : V) (d : dict V) :
  In (k, v) (dict_set k' v' d) -> (k = k' /\ v = v') \/ In (k, v) d.
Proof.
  induction d as [|[k0 v0] d IH]; simpl.
  - intros [H | []]. injection H as <- <-. auto.
  - destruct (String.eqb k' k0); simpl.
    + intros [H | H]; [injection H as <- <-; auto | auto].
    + intros [H | H]; [auto | destruct (IH H); auto].
Qed.

Lemma In_insert_all (ps : list Pipeline) : forall acc k p,
  In (k, p) (insert_all ps acc) ->
  In (k, p) acc \/ (In p ps /\ k = file p).
Proof.
  unfold insert_all.
  induction ps as [|q ps IH]; simpl; intros acc k p H; [auto|].
  destruct (IH _ _ _ H) as [H1 | [H1 H2]]; [|auto].
  destruct (In_dict_set _ _ _ _ _ H1) as [[-> ->] | H3]; auto.
Qed.

Lemma In_loaded_from (files : list string) (p : Pipeline) :
  In p (loaded_from files) <->
  exists path, In path files /\ load_file path = Ok p.
Proof.
  unfold loaded_from. rewrite in_flat_map. split.
  - intros (path & Hin & Hp). exists path. split; [exact Hin|].
    destruct (load_file path); simpl in Hp; [|contradiction].
    destruct Hp as [-> | []]. reflexivity.
  - intros (path & Hin & Hp). exists path. split; [exact Hin|].
    rewrite Hp. now left.
Qed.

Lemma dict_keys_set_In {V} (k : string) (v : V) (d : dict V) :
  In k (dict_keys (dict_set k v d)).
Proof.
  forget_unused.
  unfold dict_keys. induction d as [|[k' v'] d IH]; simpl; [now left|].
  destruct (String.eqb k k'); simpl; auto.
Qed.

Lemma dict_keys_set_mono {V} (k0 k : string) (v : V) (d : dict V) :
  In k0 (dict_keys d) -> In k0 (dict_keys (dict_set k v d)).
Proof.
  forget_unused.
  unfold dict_keys. induction d as [|[k' v'] d IH]; simpl; [contradiction|].
  destruct (String.eqb k k') eqn:E; simpl.
  - apply String.eqb_eq in E. subst k'. auto.
  - intros [H | H]; auto.
Qed.

Lemma insert_all_keys_mono (ps : list Pipeline) : forall acc k,
  In k (dict_keys acc) -> In k (dict_keys (insert_all ps acc)).
Proof.
  unfold insert_all. induction ps as [|q ps IH]; simpl; intros acc k H.
  - exact H.
  - apply IH. now apply dict_keys_set_mono.
Qed.

Lemma insert_all_has (ps : list Pipeline) : forall acc p,
  In p ps -> In (file p) (dict_keys (insert_all ps acc)).
Proof.
  induction ps as [|q ps IH]; simpl; intros acc p H; [contradiction|].
  destruct H as [-> | H].
  - apply (insert_all_keys_mono ps). apply dict_keys_set_In.
  - now apply IH.
Qed.

Lemma loaded_from_all_fail (files : list string) :
  (forall f, In f files -> exists e, load_file f = Err e) ->
  loaded_from files = [].
Proof.
  unfold loaded_from. induction files as [|f fs IH]; intros Hall.
  - reflexivity.
  - simpl. destruct (Hall f (or_introl eq_refl)) as [e ->]. simpl.
    apply IH. intros; apply Hall; now right.
Qed.

Lemma load_file_key (f : string) (p : Pipeline) :
  load_file f = Ok p -> file p = basename f /\ path p = f.
Proof.
  unfold load_file. intros H. inv_rbind H.
  unfold _build_pipeline in H.
  destruct (m_on_frame_process a); [|discriminate].
  unfold Pipeline_init in H. inv_rbind H. injection H as <-. auto.
Qed.

(** C8, amended: once the pipelines directory is found, and as long as
    every exception raised for a file derives from [Exception],
    [load_pipelines] returns normally: its map holds the pipelines of the
    files that loaded, inserted in scan order under their base names
    (each file that loaded has its key in the map), and nothing from a
    file that failed (a missing [on_frame_process] is such a failure); the
    scan goes on after a failure; with no file loading the map is empty.
    A failure is logged when a logger was given. *)
Theorem load_pipelines_isolates_failures
    (logger : option Logger) (pipeline_dir : string) :
  find_pipeline_dir _PIPELINE_DIRS None = Some pipeline_dir ->
  (forall f e, In f (glob (pipeline_dir ++ "/*.py")%string) ->
               load_file f = Err e -> isinstance_Exception e = true) ->
  let files := glob (pipeline_dir ++ "/*.py")%string in
  load_pipelines logger =
    (Ok (insert_all (loaded_from files) []),
     log_to logger (records_of files) []) /\
  (forall k p, In (k, p) (insert_all (loaded_from files) []) ->
     exists f, In f files /\ load_file f = Ok p /\ k = basename f) /\
  (forall f p, In f files -> load_file f = Ok p ->
     In (basename f) (dict_keys (insert_all (loaded_from files) []))) /\
  ((forall f, In f files -> exists e, load_file f = Err e) ->
   fst (load_pipelines logger) = Ok []) /\
  (forall l f e, logger = Some l -> In f files -> load_file f = Err e ->
     incl (failed_records f e) (snd (load_pipelines logger))) /\
  (forall m f,
     import_file (drop_last3 (basename f)) f = Ok m ->
     m_on_frame_process m = None -> load_file f = Err ValueError).
Proof.
  intros Hdir Hexc files.
  assert (Hrun : load_pipelines logger =
                 (Ok (insert_all (loaded_from files) []),
                  log_to logger (records_of files) [])).
  { unfold load_pipelines. rewrite Hdir. now apply scan_files_caught. }
  split; [exact Hrun|]. split; [|split; [|split; [|split]]].
  - intros k p Hin.
    destruct (In_insert_all _ _ _ _ Hin) as [[] | [Hp ->]].
    apply In_loaded_from in Hp. destruct Hp as (f & Hf & Hl).
    exists f. repeat split; auto. now apply load_file_key.
  - intros f p Hin Hl.
    destruct (load_file_key f p Hl) as [<- _].
    apply insert_all_has, In_loaded_from. now exists f.
  - intros Hall. rewrite Hrun. simpl.
    now rewrite loaded_from_all_fail.
  - intros l f e -> Hin Hl. rewrite Hrun. simpl.
    intros r Hr. unfold records_of. apply in_flat_map.
    exists f. split; [exact Hin|]. now rewrite Hl.
  - intros m f Him Hnone. unfold load_file. rewrite Him. simpl.
    unfold _build_pipeline. now rewrite Hnone.
Qed.

(* ------------------------------------------------------------------ *)
(** *** Loading settings: reconciliation *)

Lemma dict_get_In {V} (k : string) (v : V) (d : dict V) :
  dict_get k d = Some v -> In (k, v) d.
Proof.
  induction d as [|[k' v'] d IH]; simpl; [discriminate|].
  destruct (String.eqb k k') eqn:E.
  - apply String.eqb_eq in E. subst. intros [= ->]. now left.
  - auto.
Qed.

Lemma dict_mem_keys {V W} (k : string) (d : dict V) (d' : dict W) :
  dict_keys d = dict_keys d' -> dict_mem k d = dict_mem k d'.
Proof.
  intros H. pose proof (dict_mem_In k d) as H1.
  pose proof (dict_mem_In k d') as H2. rewrite H in H1.
  destruct (dict_mem k d), (dict_mem k d'); try reflexivity.
  - symmetry. apply H2, H1. reflexivity.
  - apply H1, H2. reflexivity.
Qed.

Lemma apply_values_ok (items : dict pyval) : forall s,
  entries_nonempty s ->
  exists s',
    apply_values items s = (s', None) /\
    dict_keys s' = dict_keys s /\ entries_nonempty s'.
Proof.
  induction items as [|[key value] items IH]; intros s Hs; simpl.
  - exists s. auto.
  - destruct (dict_get key s) as [entry|] eqn:E; [|now apply IH].
    destruct entry as [|old tl]; [now apply dict_get_In, Hs in E|]. simpl.
    destruct (IH (dict_set key (value :: tl) s)) as (s' & H1 & H2 & H3).
    + intros k e Hin. destruct (In_dict_set _ _ _ _ _ Hin) as [[_ ->] | Hin'].
      * discriminate.
      * now apply (Hs k).
    + exists s'. repeat split; auto. rewrite H2.
      apply dict_keys_set_present. congruence.
Qed.

Lemma apply_settings_ok (items : dict pyval) : forall pipelines,
  blocks_are_dicts items ->
  pipelines_nonempty pipelines ->
  exists pipelines',
    apply_settings items pipelines = (pipelines', None) /\
    dict_keys pipelines' = dict_keys pipelines.
Proof.
  induction items as [|[p_file p_settings] items IH];
    intros pipelines Hblocks Hne; cbn [apply_settings].
  - exists pipelines. auto.
  - assert (Hblocks' : blocks_are_dicts items).
    { intros k v Hin. apply Hblocks. now right. }
    destruct (str_in p_file ["order"; "active"]) eqn:Eskip; [now apply IH|].
    destruct (dict_get p_file pipelines) as [pipeline|] eqn:Eget;
      [|now apply IH].
    destruct (settings pipeline) as [s|] eqn:Es; [|now apply IH].
    destruct (Hblocks p_file p_settings (or_introl eq_refl)) as [kv ->].
    + intros ->. discriminate.
    + intros ->. discriminate.
    + destruct (apply_values_ok kv s) as (s' & Hv & Hk & Hs').
      { eapply Hne; eauto using dict_get_In. }
      rewrite Hv.
      destruct (IH (dict_set p_file (set_settings (Some s') pipeline) pipelines)
                  Hblocks') as (pipelines' & H1 & H2).
      * intros f p s0 Hin Hs0.
        destruct (In_dict_set _ _ _ _ _ Hin) as [[_ ->] | Hin'].
        -- simpl in Hs0. injection Hs0 as <-. exact Hs'.
        -- eapply Hne; eauto.
      * exists pipelines'. split; [exact H1|]. rewrite H2.
        apply dict_keys_set_present. congruence.
Qed.

Lemma keep_loaded_strs (l : list string) (pipelines : dict Pipeline) :
  keep_loaded (map PStr l) pipelines =
    Ok (filter (fun p => dict_mem p pipelines) l).
Proof.
  induction l as [|p l IH]; simpl; [reflexivity|].
  rewrite IH. simpl. now destruct (dict_mem p pipelines).
Qed.

Lemma existsb_is_str (p : string) (l : list string) :
  existsb (is_str p) (map PStr l) = str_in p l.
Proof.
  unfold str_in. induction l as [|q l IH]; simpl; [reflexivity|].
  now rewrite IH.
Qed.

Lemma keep_new_strs (keys l : list string) :
  keep_new keys (PList (map PStr l)) =
    Ok (filter (fun p => negb (str_in p l)) keys).
Proof.
  induction keys as [|p keys IH]; simpl; [reflexivity|].
  rewrite IH. simpl. rewrite existsb_is_str. now destruct (str_in p l).
Qed.

(** The runtime data that [reconcile] builds from a record whose [order]
    and [active] are lists of strings. *)
Lemma reconcile_lists (record : dict pyval) (pipelines : dict Pipeline)
    (order active : list string) :
  dict_get "order" record = Some (PList (map PStr order)) ->
  dict_get "active" record = Some (PList (map PStr active)) ->
  reconcile record pipelines =
    Ok {| pipeline_order :=
            filter (fun p => dict_mem p pipelines) order ++
            filter (fun p => negb (str_in p order)) (dict_keys pipelines);
          active_pipelines := filter (fun p => dict_mem p pipelines) active;
          to_unload := [];
          to_load := filter (fun p => dict_mem p pipelines) active;
          changes := [] |}.
Proof.
  intros Ho Ha. unfold reconcile, dict_item. rewrite Ho, Ha. simpl.
  rewrite !keep_loaded_strs. simpl. rewrite keep_new_strs. reflexivity.
Qed.

Lemma filter_ext_keys (pipelines pipelines' : dict Pipeline) (l : list string) :
  dict_keys pipelines' = dict_keys pipelines ->
  filter (fun p => dict_mem p pipelines') l =
  filter (fun p => dict_mem p pipelines) l.
Proof.
  intros H. apply filter_ext. intros p. now apply dict_mem_keys.
Qed.

(** C3: when the settings file holds a record with the lists [order] and
    [active] and a dict per plugin block, [load_settings] returns the flag
    [True] and runtime data whose order is the persisted order restricted
    to the loaded keys, followed by the loaded keys that the persisted
    order does not have, in discovery order; whose active list is the
    persisted one restricted to the loaded keys; whose [to_load] is that
    active list; and whose [to_unload] and [changes] are empty.  The
    pipelines keep their keys. *)
Theorem load_settings_reconciles
    (pipelines : dict Pipeline) (dir_path : string) (fs : filesystem)
    (record : dict pyval) (order active : list string) :
  fs_read fs (settings_path dir_path) = Some (Json (PDict record)) ->
  dict_get "order" record = Some (PList (map PStr order)) ->
  dict_get "active" record = Some (PList (map PStr active)) ->
  blocks_are_dicts record ->
  pipelines_nonempty pipelines ->
  exists pipelines',
    dict_keys pipelines' = dict_keys pipelines /\
    load_settings pipelines dir_path fs =
      Loaded pipelines'
        {| pipeline_order :=
             filter (fun p => dict_mem p pipelines) order ++
             filter (fun p => negb (str_in p order)) (dict_keys pipelines);
           active_pipelines := filter (fun p => dict_mem p pipelines) active;
           to_unload := [];
           to_load := filter (fun p => dict_mem p pipelines) active;
           changes := [] |}
        true.
Proof.
  intros Hfile Ho Ha Hblocks Hne.
  destruct (apply_settings_ok record pipelines Hblocks Hne)
    as (pipelines' & Happly & Hkeys).
  exists pipelines'. split; [exact Hkeys|].
  unfold load_settings. rewrite Hfile, Happly.
  rewrite (reconcile_lists _ _ _ _ Ho Ha).
  rewrite !(filter_ext_keys _ _ _ Hkeys), Hkeys. reflexivity.
Qed.

(* ------------------------------------------------------------------ *)
(** *** Saving, then loading *)

Lemma dict_set_new {V} (k : string) (v : V) (d : dict V) :
  ~ In k (dict_keys d) -> dict_set k v d = d ++ [(k, v)].
Proof.
  forget_unused.
  unfold dict_keys. induction d as [|[k' v'] d IH]; simpl; intros H.
  - reflexivity.
  - destruct (String.eqb k k') eqn:E.
    + apply String.eqb_eq in E. subst. tauto.
    + rewrite IH by tauto. reflexivity.
Qed.

Lemma dict_get_app_new {V} (k : string) (v : V) (a b : dict V) :
  ~ In k (dict_keys a) -> dict_get k (a ++ (k, v) :: b) = Some v.
Proof.
  forget_unused.
  unfold dict_keys. induction a as [|[k' v'] a IH]; simpl; intros H.
  - now rewrite String.eqb_refl.
  - destruct (String.eqb k k') eqn:E.
    + apply String.eqb_eq in E. subst. tauto.
    + apply IH. tauto.
Qed.

Lemma dict_set_app {V} (k : string) (v v0 : V) (a b : dict V) :
  ~ In k (dict_keys a) ->
  dict_set k v (a ++ (k, v0) :: b) = a ++ (k, v) :: b.
Proof.
  forget_unused.
  unfold dict_keys. induction a as [|[k' v'] a IH]; simpl; intros H.
  - now rewrite String.eqb_refl.
  - destruct (String.eqb k k') eqn:E.
    + apply String.eqb_eq in E. subst. tauto.
    + rewrite IH by tauto. reflexivity.
Qed.

Lemma dict_keys_app {V} (a b : dict V) :
  dict_keys (a ++ b) = dict_keys a ++ dict_keys b.
Proof. unfold dict_keys. apply map_app. Qed.

Lemma NoDup_app_cons_notin {A} (a : list A) (x : A) (b : list A) :
  NoDup (a ++ x :: b) -> ~ In x a /\ ~ In x b.
Proof.
  intros H. apply NoDup_remove_2 in H. rewrite in_app_iff in H. tauto.
Qed.

Lemma save_values_block (s : settings_dict) : forall acc,
  NoDup (dict_keys acc ++ dict_keys s) ->
  entries_nonempty s ->
  save_values s acc = Ok (acc ++ saved_block s).
Proof.
  induction s as [|[key entry] s IH]; intros acc Hnd Hne; simpl.
  - now rewrite app_nil_r.
  - destruct entry as [|v tl]; [now destruct (Hne key [] (or_introl eq_refl))|].
    simpl. destruct (NoDup_app_cons_notin _ _ _ Hnd) as [Ha _].
    rewrite dict_set_new by exact Ha.
    rewrite IH.
    + now rewrite <- app_assoc.
    + rewrite dict_keys_app, <- app_assoc. exact Hnd.
    + intros k e Hin. apply (Hne k). now right.
Qed.

Lemma dict_keys_saved_blocks (ps : dict Pipeline) (f : string) :
  In f (dict_keys (saved_blocks ps)) -> In f (dict_keys ps).
Proof.
  unfold dict_keys, saved_blocks.
  induction ps as [|[f0 p] ps IH]; simpl; [auto|].
  rewrite map_app, in_app_iff. intros [H | H]; [|auto].
  destruct (settings p); simpl in H; [|contradiction].
  destruct H as [-> | []]. now left.
Qed.

Lemma save_pipelines_blocks (ps : dict Pipeline) : forall acc,
  NoDup (dict_keys acc ++ dict_keys ps) ->
  (forall f p s, In (f, p) ps -> settings p = Some s ->
                 NoDup (dict_keys s) /\ entries_nonempty s) ->
  save_pipelines ps acc = Ok (acc ++ saved_blocks ps).
Proof.
  induction ps as [|[f p] ps IH]; intros acc Hnd Hs; simpl.
  - now rewrite app_nil_r.
  - destruct (NoDup_app_cons_notin _ _ _ Hnd) as [Ha _].
    destruct (settings p) as [s|] eqn:Es.
    + destruct (Hs f p s (or_introl eq_refl) Es) as [Hnds Hnes].
      rewrite (save_values_block s []) by (simpl; auto). simpl.
      rewrite dict_set_new by exact Ha.
      rewrite IH.
      * now rewrite <- app_assoc.
      * rewrite dict_keys_app, <- app_assoc. exact Hnd.
      * intros f0 p0 s0 Hin. apply (Hs f0). now right.
    + simpl. apply IH.
      * apply NoDup_remove_1 in Hnd. exact Hnd.
      * intros f0 p0 s0 Hin. apply (Hs f0). now right.
Qed.

Lemma saved_blocks_cons (f : string) (p : Pipeline) (ps : dict Pipeline) :
  saved_blocks ((f, p) :: ps) =
    match settings p with
    | Some s => (f, PDict (saved_block s)) :: saved_blocks ps
    | None => saved_blocks ps
    end.
Proof.
  unfold saved_blocks. simpl. now destruct (settings p).
Qed.

Lemma app_cons_assoc {A} (a : list A) (x : A) (b : list A) :
  a ++ x :: b = (a ++ [x]) ++ b.
Proof. now rewrite <- app_assoc. Qed.

(** Loading a saved block into a table that agrees with the saved one
    gives the saved table back. *)
Lemma apply_values_restores (todo : settings_dict) : forall pre todo',
  settings_agree todo todo' ->
  NoDup (dict_keys (pre ++ todo)) ->
  apply_values (saved_block todo) (pre ++ todo') = (pre ++ todo, None).
Proof.
  induction todo as [|[k e] todo IH]; intros pre todo' Hag Hnd;
    inversion Hag as [|? [k' e'] ? rest' [Hk (He & He' & Htl)] Hrest]; subst.
  - reflexivity.
  - simpl in Hk, He, He', Htl. subst k'.
    destruct e as [|v tl]; [contradiction|].
    destruct e' as [|v' tl']; [contradiction|]. simpl in Htl. subst tl'.
    rewrite dict_keys_app in Hnd. simpl in Hnd.
    destruct (NoDup_app_cons_notin _ _ _ Hnd) as [Hpre _].
    simpl. rewrite dict_get_app_new by exact Hpre. simpl.
    rewrite dict_set_app by exact Hpre.
    rewrite (app_cons_assoc pre), IH.
    + now rewrite <- app_cons_assoc.
    + exact Hrest.
    + rewrite <- app_cons_assoc, dict_keys_app. exact Hnd.
Qed.

Lemma str_in_reserved (f : string) :
  f <> "order" -> f <> "active" -> str_in f ["order"; "active"] = false.
Proof.
  intros H1 H2. unfold str_in. cbn [existsb].
  apply String.eqb_neq in H1, H2. now rewrite H1, H2.
Qed.

Lemma pipeline_agree_None (p p' : Pipeline) :
  pipeline_agree p p' -> settings p = None -> p' = p.
Proof.
  intros [Hset Hs] Hnone. rewrite Hnone in Hs.
  destruct (settings p') eqn:E; [contradiction|].
  rewrite <- (set_settings_self p), <- (set_settings_self p'), Hnone, E.
  now symmetry.
Qed.

Lemma pipeline_agree_Some (p p' : Pipeline) (s : settings_dict) :
  pipeline_agree p p' -> settings p = Some s ->
  set_settings (Some s) p' = p /\
  exists s', settings p' = Some s' /\ settings_agree s s'.
Proof.
  intros [Hset Hs] Hsome. rewrite Hsome in Hs. split.
  - rewrite <- (set_settings_self p), Hsome.
    change (set_settings (Some s) (set_settings None p') =
            set_settings (Some s) (set_settings None p)).
    now rewrite Hset.
  - destruct (settings p') as [s'|]; [|contradiction]. now exists s'.
Qed.

(** Loading the saved blocks into pipelines that agree with the saved
    ones gives the saved pipelines back. *)
Lemma apply_settings_restores (todo : dict Pipeline) : forall pre todo',
  pipelines_agree todo todo' ->
  NoDup (dict_keys (pre ++ todo)) ->
  (forall f, In f (dict_keys todo) -> f <> "order" /\ f <> "active") ->
  (forall f p s, In (f, p) todo -> settings p = Some s ->
                 NoDup (dict_keys s)) ->
  apply_settings (saved_blocks todo) (pre ++ todo') = (pre ++ todo, None).
Proof.
  induction todo as [|[f p] todo IH]; intros pre todo' Hag Hnd Hres Hs;
    inversion Hag as [|? [f' p'] ? rest' [Hf Hp] Hrest]; subst.
  - reflexivity.
  - simpl in Hf, Hp. subst f'.
    assert (Hnd' : NoDup (dict_keys ((pre ++ [(f, p)]) ++ todo)))
      by now rewrite <- app_cons_assoc.
    assert (Hres' : forall f0, In f0 (dict_keys todo) ->
                               f0 <> "order" /\ f0 <> "active")
      by (intros f0 Hin; apply Hres; now right).
    assert (Hs' : forall f0 p0 s0, In (f0, p0) todo -> settings p0 = Some s0 ->
                                   NoDup (dict_keys s0))
      by (intros f0 p0 s0 Hin; apply (Hs f0); now right).
    rewrite dict_keys_app in Hnd. simpl in Hnd.
    destruct (NoDup_app_cons_notin _ _ _ Hnd) as [Hpre _].
    rewrite saved_blocks_cons. destruct (settings p) as [s|] eqn:Es.
    + destruct (pipeline_agree_Some _ _ _ Hp Es) as (Hback & s' & Es' & Hss).
      destruct (Hres f (or_introl eq_refl)) as [Ho Ha].
      cbn [apply_settings]. rewrite (str_in_reserved f Ho Ha).
      rewrite dict_get_app_new by exact Hpre. rewrite Es'.
      assert (Hv : apply_values (saved_block s) s' = (s, None)).
      { apply (apply_values_restores s [] s' Hss).
        apply (Hs f p); [now left | exact Es]. }
      rewrite Hv, Hback, dict_set_app by exact Hpre.
      rewrite (app_cons_assoc pre), (IH _ _ Hrest Hnd' Hres' Hs').
      now rewrite <- app_cons_assoc.
    + rewrite (pipeline_agree_None _ _ Hp Es).
      rewrite (app_cons_assoc pre), (IH _ _ Hrest Hnd' Hres' Hs').
      now rewrite <- app_cons_assoc.
Qed.

Lemma filter_all {A} (f : A -> bool) (l : list A) :
  (forall a, In a l -> f a = true) -> filter f l = l.
Proof.
  induction l as [|a l IH]; simpl; intros H; [reflexivity|].
  rewrite (H a) by now left. rewrite IH; [reflexivity|]. auto.
Qed.

Lemma filter_none {A} (f : A -> bool) (l : list A) :
  (forall a, In a l -> f a = false) -> filter f l = [].
Proof.
  induction l as [|a l IH]; simpl; intros H; [reflexivity|].
  rewrite (H a) by now left. apply IH. auto.
Qed.

Lemma str_in_In (p : string) (l : list string) :
  str_in p l = true <-> In p l.
Proof.
  unfold str_in. rewrite existsb_exists. split.
  - intros (q & Hq & E). apply String.eqb_eq in E. now subst.
  - intros H. exists p. split; [exact H | apply String.eqb_refl].
Qed.

Lemma agree_nonempty (ps ps' : dict Pipeline) :
  pipelines_agree ps ps' ->
  forall f p s, In (f, p) ps -> settings p = Some s -> entries_nonempty s.
Proof.
  induction 1 as [|[f0 p0] [f0' p0'] ps ps' [_ Hp] _ IH];
    intros f p s Hin Hs; [contradiction|].
  destruct Hin as [[= -> ->] | Hin]; [|eauto].
  simpl in Hp. destruct (pipeline_agree_Some _ _ _ Hp Hs) as (_ & s' & _ & Hss).
  clear - Hss. induction Hss as [|a b s s' [_ (Ha & _)] _ IH'].
  - intros k e [].
  - intros k e [Heq | Hin]; [subst a; exact Ha | eauto].
Qed.

Lemma fs_read_write (path : string) (c : file_content) (fs : filesystem) :
  fs_read (fs_write path c fs) path = Some c.
Proof. simpl. now rewrite String.eqb_refl. Qed.

Lemma save_settings_record (pipelines : dict Pipeline)
    (order active : list string) (dir_path : string) (fs : filesystem) :
  loaded_map pipelines ->
  (forall f p s, In (f, p) pipelines -> settings p = Some s ->
                 entries_nonempty s) ->
  fs_writable fs (settings_path dir_path) = true ->
  save_settings pipelines order active dir_path fs =
    Ok (fs_write (settings_path dir_path)
          (Json (PDict (saved_record pipelines order active))) fs).
Proof.
  intros (Hnd & Hres & Hs) Hne Hw. unfold save_settings.
  change (dict_set "active" (PList (map PStr active))
            (dict_set "order" (PList (map PStr order)) []))
    with [("order", PList (map PStr order));
          ("active", PList (map PStr active))].
  rewrite save_pipelines_blocks.
  - simpl. now rewrite Hw.
  - simpl. constructor; [|constructor; [|exact Hnd]].
    + intros [H | H]; [discriminate | now apply Hres in H].
    + intros H. now apply Hres in H.
  - intros f p s Hin Hsp. split; [now apply (Hs f p) | now apply (Hne f p)].
Qed.

Lemma load_saved_record (pipelines fresh : dict Pipeline)
    (order active : list string) (dir_path : string) (fs : filesystem) :
  loaded_map pipelines ->
  pipelines_agree pipelines fresh ->
  fs_read fs (settings_path dir_path) =
    Some (Json (PDict (saved_record pipelines order active))) ->
  load_settings fresh dir_path fs =
    Loaded pipelines
      {| pipeline_order :=
           filter (fun p => dict_mem p pipelines) order ++
           filter (fun p => negb (str_in p order)) (dict_keys pipelines);
         active_pipelines := filter (fun p => dict_mem p pipelines) active;
         to_unload := [];
         to_load := filter (fun p => dict_mem p pipelines) active;
         changes := [] |}
      true.
Proof.
  intros (Hnd & Hres & Hs) Hag Hfile. unfold load_settings. rewrite Hfile.
  assert (Happly : apply_settings (saved_record pipelines order active) fresh
                   = (pipelines, None)).
  { unfold saved_record. cbn [apply_settings].
    change (str_in "order" ["order"; "active"]) with true.
    change (str_in "active" ["order"; "active"]) with true. cbv iota.
    now apply (apply_settings_restores pipelines [] fresh). }
  rewrite Happly.
  now rewrite (reconcile_lists (saved_record pipelines order active)
                 pipelines order active eq_refl eq_refl).
Qed.

(** C9: for a loaded pipeline map, an order that lists the loaded keys and
    an active list among them, [save_settings] writes a record with
    [order], [active] and, for each plugin that has settings, a block that
    maps every setting key to its current value alone; and [load_settings]
    on that file, applied to the same plugins whatever their current
    values, gives back the saved pipelines with all their settings values,
    the same order and the same active list. *)
Theorem persistence_roundtrip
    (pipelines fresh : dict Pipeline) (order active : list string)
    (dir_path : string) (fs : filesystem) :
  loaded_map pipelines ->
  pipelines_agree pipelines fresh ->
  (forall p, In p order <-> In p (dict_keys pipelines)) ->
  (forall p, In p active -> In p (dict_keys pipelines)) ->
  fs_writable fs (settings_path dir_path) = true ->
  exists fs',
    save_settings pipelines order active dir_path fs = Ok fs' /\
    fs_read fs' (settings_path dir_path) =
      Some (Json (PDict (saved_record pipelines order active))) /\
    load_settings fresh dir_path fs' =
      Loaded pipelines
        {| pipeline_order := order; active_pipelines := active;
           to_unload := []; to_load := active; changes := [] |}
        true.
Proof.
  intros Hmap Hag Horder Hactive Hw.
  eexists. split; [|split].
  - apply save_settings_record; eauto using agree_nonempty.
  - apply fs_read_write.
  - rewrite (load_saved_record pipelines fresh order active)
      by (auto using fs_read_write).
    rewrite (filter_all _ order), (filter_all _ active), filter_none.
    + now rewrite app_nil_r.
    + intros p Hin. apply Horder in Hin. apply str_in_In in Hin.
      now rewrite Hin.
    + intros p Hin. now apply dict_mem_In, Hactive.
    + intros p Hin. now apply dict_mem_In, Horder.
Qed.

(* ================================================================== *)
(** ** Further properties *)

(* ------------------------------------------------------------------ *)
(** *** The language of [_COMBO_TAG_REGEX] *)

Lemma append_nil_r (s : string) : (s ++ "")%string = s.
Proof. induction s; simpl; congruence. Qed.

Lemma append_assoc (a b c : string) :
  ((a ++ b) ++ c)%string = (a ++ (b ++ c))%string.
Proof. induction a; simpl; congruence. Qed.

Lemma append_eq_nil (a b : string) :
  (a ++ b)%string = "" -> a = "" /\ b = "".
Proof. destruct a; simpl; [auto | discriminate]. Qed.

Lemma nullable_matches (r : regex) : nullable r = true <-> matches r "".
Proof.
  split.
  - induction r; simpl; intros H; try discriminate.
    + constructor.
    + apply andb_true_iff in H. destruct H.
      change "" with ("" ++ "")%string. constructor; auto.
    + apply orb_true_iff in H.
      destruct H; [apply M_AltL | apply M_AltR]; auto.
    + constructor.
  - intros H. remember "" as s eqn:Es.
    induction H; simpl; try discriminate; auto.
    + apply append_eq_nil in Es. destruct Es.
      rewrite IHmatches1, IHmatches2; auto.
    + now rewrite IHmatches.
    + rewrite IHmatches; auto. apply orb_true_r.
Qed.

Lemma matches_deriv (r : regex) : forall a s,
  matches (deriv a r) s -> matches r (String a s).
Proof.
  induction r; simpl; intros a s H.
  - inversion H.
  - inversion H.
  - destruct (Ascii.eqb a c) eqn:E; inversion H; subst.
    apply Ascii.eqb_eq in E. subst. constructor.
  - destruct (Ascii.eqb a newline) eqn:E; inversion H; subst.
    apply Ascii.eqb_neq in E. now constructor.
  - destruct (nullable r1) eqn:N.
    + inversion H; subst.
      * inversion H3; subst.
        change (String a (u ++ v)) with (String a u ++ v)%string.
        constructor; auto.
      * change (String a s) with ("" ++ String a s)%string.
        constructor; auto. now apply nullable_matches.
    + inversion H; subst.
      change (String a (u ++ v)) with (String a u ++ v)%string.
      constructor; auto.
  - inversion H; subst; [apply M_AltL | apply M_AltR]; auto.
  - inversion H; subst.
    change (String a (u ++ v)) with (String a u ++ v)%string.
    constructor; auto.
Qed.

Lemma deriv_matches (r : regex) (t : string) :
  matches r t -> forall a w, t = String a w -> matches (deriv a r) w.
Proof.
  induction 1 as [ | c | c Hc | r1 r2 u v H1 IH1 H2 IH2 | r1 r2 u H1 IH1
                 | r1 r2 u H1 IH1 | r1 | r1 u v H1 IH1 H2 IH2];
    intros a w E; simpl; try discriminate.
  - injection E as <- <-. rewrite Ascii.eqb_refl. constructor.
  - injection E as <- <-.
    apply Ascii.eqb_neq in Hc. rewrite Hc. constructor.
  - destruct u as [|c u]; simpl in E.
    + subst v. apply nullable_matches in H1. rewrite H1.
      apply M_AltR. now apply IH2.
    + injection E as <- <-.
      assert (Hl : matches (Cat (deriv c r1) r2) (u ++ v))
        by (constructor; auto).
      destruct (nullable r1); [now apply M_AltL | exact Hl].
  - apply M_AltL. auto.
  - apply M_AltR. auto.
  - destruct u as [|c u]; simpl in E.
    + now apply IH2.
    + injection E as <- <-. constructor; auto.
Qed.

(** Matching by derivatives is membership in the language. *)
Lemma re_match_matches (r : regex) (s : string) :
  re_match r s = true <-> matches r s.
Proof.
  revert r. induction s as [|a s IH]; intros r; simpl.
  - apply nullable_matches.
  - rewrite IH. split.
    + apply matches_deriv.
    + intros H. now apply (deriv_matches r (String a s)).
Qed.

Lemma no_newline_app (a b : string) :
  no_newline (a ++ b) = no_newline a && no_newline b.
Proof.
  induction a as [|c a IH]; simpl; [reflexivity|].
  now rewrite IH, andb_assoc.
Qed.

Lemma matches_star_dot (s : string) :
  matches (Star Dot) s <-> no_newline s = true.
Proof.
  split.
  - intros H. remember (Star Dot) as r eqn:Er.
    induction H as [ | | | | | | r0 | r0 u v H1 _ H2 IH2]; try discriminate.
    + reflexivity.
    + injection Er as ->. inversion H1 as [ | | c Hc | | | | | ]; subst.
      simpl. apply Ascii.eqb_neq in Hc. rewrite Hc. simpl. now apply IH2.
  - induction s as [|c s IH]; simpl; intros H.
    + constructor.
    + apply andb_true_iff in H. destruct H as [Hc Hs].
      change (String c s) with (String c "" ++ s)%string. constructor.
      * constructor. apply Ascii.eqb_neq. now destruct (Ascii.eqb c newline).
      * auto.
Qed.

Lemma matches_options (s : string) :
  matches (Star (Cat (Star Dot) (Chr ","))) s -> no_newline s = true.
Proof.
  intros H. remember (Star (Cat (Star Dot) (Chr ","))) as r eqn:Er.
  induction H as [ | | | | | | r0 | r0 u v H1 _ H2 IH2]; try discriminate.
  - reflexivity.
  - injection Er as ->. rewrite no_newline_app, (IH2 eq_refl), andb_true_r.
    inversion H1 as [ | | | r1 r2 x y Hx Hy | | | | ]; subst.
    inversion Hy; subst. rewrite no_newline_app.
    apply matches_star_dot in Hx. now rewrite Hx.
Qed.

Lemma matches_Lit (p s : string) : matches (Lit p) s <-> s = p.
Proof.
  revert s. induction p as [|c p IH]; intros s; simpl.
  - split; [intros H; now inversion H | intros ->; constructor].
  - split.
    + intros H. inversion H as [ | | | r1 r2 u v Hu Hv | | | | ]; subst.
      inversion Hu; subst. apply IH in Hv. now subst.
    + intros ->. change (String c p) with (String c "" ++ p)%string.
      constructor; [constructor | now apply IH].
Qed.

Lemma combo_tag_language (t : string) :
  re_match _COMBO_TAG_REGEX t = true <->
  exists a b final,
    no_newline a = true /\ no_newline b = true /\ t = combo_text a b final.
Proof.
  rewrite re_match_matches. unfold _COMBO_TAG_REGEX, combo_text. split.
  - intros H.
    inversion H as [ | | | ? ? l x1 Hl H1 | | | | ]; subst.
    inversion H1 as [ | | | ? ? o x2 Ho H2 | | | | ]; subst.
    inversion H2 as [ | | | ? ? d x3 Hd H3 | | | | ]; subst.
    inversion H3 as [ | | | ? ? rb x4 Hrb H4 | | | | ]; subst.
    inversion H4 as [ | | | ? ? d2 e Hd2 He | | | | ]; subst.
    apply (matches_Lit "%COMBO[") in Hl. subst l.
    apply matches_options in Ho. apply matches_star_dot in Hd, Hd2.
    inversion Hrb; subst.
    inversion He as [ | | | | ? ? ? He' | ? ? ? He' | | ]; subst;
      inversion He'; subst.
    + exists (o ++ d)%string, d2, false.
      rewrite no_newline_app, Ho, Hd. repeat split; auto.
      now rewrite !append_assoc.
    + exists (o ++ d)%string, d2, true.
      rewrite no_newline_app, Ho, Hd. repeat split; auto.
      now rewrite !append_assoc.
  - intros (a & b & final & Ha & Hb & ->).
    constructor; [now apply (matches_Lit "%COMBO[")|].
    change (a ++ "]" ++ b ++ (if final then nl else ""))%string
      with ("" ++ (a ++ ("]" ++ (b ++ (if final then nl else "")))))%string.
    constructor; [constructor|].
    constructor; [now apply matches_star_dot|].
    constructor; [constructor|].
    constructor; [now apply matches_star_dot|].
    destruct final; [apply M_AltR | apply M_AltL]; constructor.
Qed.

(** X1: an integer setting is a combo box (code 3) exactly when its
    tooltip is [%COMBO[], any text, []], any text, and possibly one final
    newline, with no other newline; no option and no comma is required. *)
Theorem combo_box_tooltips (z : Z) (t : string) :
  _to_internal_type (PInt z) (PStr t) = Ok 3 <->
  exists a b final,
    no_newline a = true /\ no_newline b = true /\ t = combo_text a b final.
Proof.
  rewrite <- combo_tag_language. unfold _to_internal_type.
  rewrite str_int_not_bool. simpl.
  destruct (re_match _COMBO_TAG_REGEX t); split; congruence.
Qed.

(* ------------------------------------------------------------------ *)
(** *** The directory loop, for any list of candidates *)

Lemma find_app_last {A} (f : A -> bool) (l : list A) (a : A) :
  find f (l ++ [a]) =
    match find f l with
    | Some x => Some x
    | None => if f a then Some a else None
    end.
Proof.
  induction l as [|b l IH]; simpl; [reflexivity|].
  now destruct (f b).
Qed.

Lemma find_pipeline_dir_acc (dirs : list string) : forall acc,
  find_pipeline_dir dirs acc =
    match find isdir (rev dirs) with
    | Some d => Some (abspath d)
    | None => acc
    end.
Proof.
  induction dirs as [|d dirs IH]; intros acc; simpl; [reflexivity|].
  rewrite IH, find_app_last.
  destruct (find isdir (rev dirs)); [reflexivity|].
  now destruct (isdir d).
Qed.

(** X2: for any list of candidates, the loop of [load_pipelines] ends on
    the absolute path of the last candidate that is a directory, and on
    [None] exactly when no candidate is one. *)
Theorem find_pipeline_dir_last (dirs : list string) :
  find_pipeline_dir dirs None = last_existing_dir dirs /\
  (find_pipeline_dir dirs None = None <->
   forall d, In d dirs -> isdir d = false).
Proof.
  unfold last_existing_dir. rewrite find_pipeline_dir_acc. split.
  - reflexivity.
  - destruct (find isdir (rev dirs)) as [d|] eqn:E.
    + split; [discriminate|]. intros H.
      apply find_some in E. destruct E as [Hin Hd].
      apply in_rev in Hin. rewrite (H d Hin) in Hd. discriminate.
    + split; [|reflexivity]. intros _ d Hin.
      apply in_rev in Hin.
      pose proof (find_none _ _ E d Hin) as H. exact H.
Qed.

(* ------------------------------------------------------------------ *)
(** *** What [__init__] and [_build_pipeline] accept *)

Lemma to_internal_type_range (value tooltip : pyval) (c : Z) :
  _to_internal_type value tooltip = Ok c -> 0 <= c <= 3.
Proof.
  unfold _to_internal_type.
  destruct (str_in (py_str value) ["True"; "False"]);
    [intros [= <-]; lia|].
  destruct (isinstance_int value); [|intros [= <-]; lia].
  destruct tooltip; try discriminate.
  destruct (re_match _COMBO_TAG_REGEX s); intros [= <-]; lia.
Qed.

Lemma to_internal_type_accepts (value tooltip : pyval) :
  (exists c, _to_internal_type value tooltip = Ok c) <->
  str_in (py_str value) ["True"; "False"] || negb (isinstance_int value) ||
  match tooltip with
  | PStr _ => true
  | _ => false
  end = true.
Proof.
  unfold _to_internal_type.
  destruct (str_in (py_str value) ["True"; "False"]); simpl.
  - split; [reflexivity | intros _; now exists 0].
  - destruct (isinstance_int value); simpl.
    + destruct tooltip; simpl;
        try (split; [intros [c H]; discriminate H | discriminate]).
      split; [reflexivity|]. intros _.
      destruct (re_match _COMBO_TAG_REGEX s); eexists; reflexivity.
    + split; [reflexivity | intros _; now exists 2].
Qed.

Lemma to_internal_type_error (value tooltip : pyval) (e : exn) :
  _to_internal_type value tooltip = Err e -> e = TypeError.
Proof.
  unfold _to_internal_type.
  destruct (str_in (py_str value) ["True"; "False"]); [discriminate|].
  destruct (isinstance_int value); [|discriminate].
  destruct tooltip; try (intros [= <-]; reflexivity).
  destruct (re_match _COMBO_TAG_REGEX s); discriminate.
Qed.

Lemma build_mappings_accepts (s : settings_dict) : forall acc,
  (exists m, build_mappings s acc = Ok m) <->
  forallb (fun kv => entry_valid (snd kv)) s = true.
Proof.
  induction s as [|[k v] s IH]; intros acc;
    cbn [build_mappings forallb snd].
  - split; [reflexivity | intros _; now exists acc].
  - unfold entry_valid, list_item.
    destruct (nth_error v 0) as [v0|]; cbn [rbind andb];
      [|split; [intros [m H]; discriminate H | discriminate]].
    destruct (nth_error v 4) as [v4|]; cbn [rbind andb];
      [|split; [intros [m H]; discriminate H | discriminate]].
    pose proof (to_internal_type_accepts v0 v4) as Hty.
    destruct (_to_internal_type v0 v4) as [c|e]; cbn [rbind].
    + rewrite IH.
      replace (str_in (py_str v0) ["True"; "False"] ||
               negb (isinstance_int v0) ||
               match v4 with PStr _ => true | _ => false end) with true.
      * reflexivity.
      * symmetry. apply Hty. now exists c.
    + replace (str_in (py_str v0) ["True"; "False"] ||
               negb (isinstance_int v0) ||
               match v4 with PStr _ => true | _ => false end) with false.
      * split; [intros [m H]; discriminate H | discriminate].
      * symmetry. apply not_true_is_false. intros H.
        apply Hty in H. destruct H as [c H]. discriminate H.
Qed.

Lemma build_mappings_error (s : settings_dict) : forall acc e,
  build_mappings s acc = Err e -> e = IndexError \/ e = TypeError.
Proof.
  induction s as [|[k v] s IH]; intros acc e; cbn [build_mappings];
    [discriminate|].
  unfold list_item.
  destruct (nth_error v 0) as [v0|]; cbn [rbind]; [|intros [= <-]; now left].
  destruct (nth_error v 4) as [v4|]; cbn [rbind]; [|intros [= <-]; now left].
  destruct (_to_internal_type v0 v4) as [c|e'] eqn:E; cbn [rbind].
  - apply IH.
  - intros [= <-]. right. now apply (to_internal_type_error v0 v4).
Qed.

(** X3: [_build_pipeline] builds a pipeline exactly when the module has
    [on_frame_process] and every settings entry has five elements, with a
    string as tooltip when the default is an integer; it raises
    [ValueError] exactly when [on_frame_process] is missing, and otherwise
    only [IndexError] or [TypeError]. *)
Theorem build_pipeline_accepts (module : py_module) (name path : string) :
  ((exists p, _build_pipeline module name path = Ok p) <->
   m_on_frame_process module <> None /\
   settings_valid (m_settings module) = true) /\
  (_build_pipeline module name path = Err ValueError <->
   m_on_frame_process module = None) /\
  (forall e, _build_pipeline module name path = Err e ->
             e = ValueError \/ e = IndexError \/ e = TypeError).
Proof.
  unfold _build_pipeline, Pipeline_init, settings_valid.
  destruct (m_on_frame_process module) as [process|].
  - destruct (m_settings module) as [s|]; simpl.
    + pose proof (build_mappings_accepts s []) as Hacc.
      pose proof (build_mappings_error s []) as Herr.
      destruct (build_mappings s []) as [m|e0]; simpl.
      * split; [|split].
        -- split; [intros _; split; [discriminate | apply Hacc; eauto]
                  | intros _; eauto].
        -- split; discriminate.
        -- discriminate.
      * split; [|split].
        -- split; [intros [p H]; discriminate H|].
           intros [_ H]. apply Hacc in H. destruct H as [m H]. discriminate H.
        -- split; [|discriminate]. intros [= ->].
           destruct (Herr ValueError eq_refl); discriminate.
        -- intros e [= <-]. right. now apply Herr.
    + split; [|split].
      * split; [intros _; split; [discriminate | reflexivity]
               | intros _; eauto].
      * split; discriminate.
      * discriminate.
  - split; [|split].
    + split; [intros [p H]; discriminate H | intros [H _]; now destruct H].
    + split; reflexivity.
    + intros e [= <-]. now left.
Qed.

Lemma dict_keys_set_inv {V} (k k' : string) (v : V) (d : dict V) :
  In k (dict_keys (dict_set k' v d)) -> k = k' \/ In k (dict_keys d).
Proof.
  forget_unused.
  unfold dict_keys. induction d as [|[k0 v0] d IH]; simpl.
  - intros [H | []]. now left.
  - destruct (String.eqb k' k0) eqn:E; simpl.
    + apply String.eqb_eq in E. subst k0. intros [H | H]; auto.
    + intros [H | H]; [auto|]. destruct (IH H); auto.
Qed.

Lemma build_mappings_keys (s : settings_dict) : forall acc m k,
  build_mappings s acc = Ok m ->
  (In k (dict_keys m) <-> In k (dict_keys acc) \/ In k (dict_keys s)).
Proof.
  forget_unused.
  induction s as [|[k0 v] s IH]; intros acc m k H; cbn [build_mappings] in H.
  - injection H as <-. simpl. tauto.
  - do 3 inv_rbind H. rewrite (IH _ _ k H). simpl. split.
    + intros [Hin | Hin]; [|tauto].
      destruct (dict_keys_set_inv _ _ _ _ Hin) as [-> | Hin']; tauto.
    + intros [Hin | [<- | Hin]].
      * left. now apply dict_keys_set_mono.
      * left. apply dict_keys_set_In.
      * tauto.
Qed.

Lemma build_mappings_codes (s : settings_dict) : forall acc m,
  build_mappings s acc = Ok m ->
  (forall k c, In (k, c) acc -> 0 <= c <= 3) ->
  forall k c, In (k, c) m -> 0 <= c <= 3.
Proof.
  induction s as [|[k0 v] s IH]; intros acc m H Hacc;
    cbn [build_mappings] in H.
  - injection H as <-. exact Hacc.
  - do 3 inv_rbind H. apply (IH _ _ H).
    intros k c Hin. destruct (In_dict_set _ _ _ _ _ Hin) as [[_ ->] | Hin'].
    + now apply (to_internal_type_range a a0).
    + now apply (Hacc k).
Qed.

Lemma build_mappings_lengths (s : settings_dict) : forall acc m,
  build_mappings s acc = Ok m ->
  forall k e, In (k, e) s -> (5 <= List.length e)%nat.
Proof.
  induction s as [|[k0 v] s IH]; intros acc m H k e Hin;
    cbn [build_mappings] in H; [contradiction|].
  do 3 inv_rbind H. destruct Hin as [[= <- <-] | Hin].
  - unfold list_item in E0.
    destruct (nth_error v 4) eqn:N; [|discriminate].
    assert (4 < List.length v)%nat
      by (apply nth_error_Some; congruence).
    lia.
  - now apply (IH _ _ H k e).
Qed.

(** X4: a pipeline that [__init__] has built keeps its settings table and
    has one mapping per declared key and no other, each with a code from
    0 to 3 (none at all without settings); every settings entry has at
    least five elements. *)
Theorem pipeline_init_invariant
    (file_path : string) (nm : pyval) (cbs : PipelineCallbacks)
    (ver dsc : pyval) (declared : option settings_dict) (p : Pipeline) :
  Pipeline_init file_path nm cbs ver dsc declared = Ok p ->
  settings p = declared /\
  file p = basename file_path /\
  (forall k, In k (dict_keys (mappings p)) <->
             exists s, declared = Some s /\ In k (dict_keys s)) /\
  (forall k c, dict_get k (mappings p) = Some c -> 0 <= c <= 3) /\
  (forall s k e, declared = Some s -> In (k, e) s ->
                 (5 <= List.length e)%nat).
Proof.
  unfold Pipeline_init. intros H. inv_rbind H. injection H as <-. simpl.
  split; [reflexivity|]. split; [reflexivity|].
  destruct declared as [s|].
  - split; [|split].
    + intros k. rewrite (build_mappings_keys s [] a k E). simpl. split.
      * intros [[] | Hin]. now exists s.
      * intros (s' & [= <-] & Hin). now right.
    + intros k c Hget. apply dict_get_In in Hget.
      apply (build_mappings_codes s [] a E) with (k := k); [|exact Hget].
      intros k' c' [].
    + intros s' k e [= <-]. now apply (build_mappings_lengths s [] a E).
  - injection E as <-. split; [|split].
    + intros k. simpl. split; [contradiction | intros (s & H & _); discriminate].
    + intros k c H. discriminate.
    + intros s k e H. discriminate.
Qed.

Lemma in_keys_get {V} (k : string) (d : dict V) :
  In k (dict_keys d) -> exists v, dict_get k d = Some v.
Proof.
  forget_unused.
  intros H. destruct (dict_get k d) eqn:E; [eauto|].
  apply dict_get_None in E. contradiction.
Qed.

Lemma pipeline_init_invariant_keys
    (file_path : string) (nm : pyval) (cbs : PipelineCallbacks)
    (ver dsc : pyval) (s : settings_dict) (p : Pipeline) (key : string) :
  Pipeline_init file_path nm cbs ver dsc (Some s) = Ok p ->
  In key (dict_keys s) ->
  exists c, dict_get key (mappings p) = Some c /\ 0 <= c <= 3.
Proof.
  unfold Pipeline_init. intros H Hkey. inv_rbind H. injection H as <-. simpl.
  assert (Hin : In key (dict_keys a))
    by (apply (build_mappings_keys s [] a key E); now right).
  destruct (in_keys_get key a Hin) as [c Hc]. exists c. split; [exact Hc|].
  apply dict_get_In in Hc.
  apply (build_mappings_codes s [] a E) with (k := key); [|exact Hc].
  intros k' c' [].
Qed.

(** X5: for a key that the settings declare, [_to_value] never raises
    [KeyError]: it fails only where [int(value)] fails, with the same
    exception, and it decodes every boolean, every integer and every
    finite float. *)
Theorem to_value_declared_key
    (file_path : string) (nm : pyval) (cbs : PipelineCallbacks)
    (ver dsc : pyval) (s : settings_dict) (p : Pipeline) (key : string) :
  Pipeline_init file_path nm cbs ver dsc (Some s) = Ok p ->
  In key (dict_keys s) ->
  (forall value e, _to_value p key value = Err e -> py_int value = Err e) /\
  (forall value,
      match value with
      | PBool _ | PInt _ | PFloat (S754_zero _) | PFloat (S754_finite _ _ _) =>
          exists v, _to_value p key value = Ok v
      | _ => True
      end).
Proof.
  intros Hinit Hkey.
  destruct (pipeline_init_invariant_keys _ _ _ _ _ _ _ _ Hinit Hkey)
    as (c & Hc & Hrange).
  assert (Hcases : c = 0 \/ c = 1 \/ c = 2 \/ c = 3) by lia.
  split.
  - intros value e. rewrite (to_value_code p key value c Hc).
    destruct Hcases as [-> | [-> | [-> | ->]]]; simpl; try discriminate;
      destruct (py_int value); simpl; congruence.
  - intros value.
    destruct value as [| b | z | [sg | sg | | sg m e] | | |]; try exact I;
      rewrite (to_value_code p key _ c Hc);
      destruct Hcases as [-> | [-> | [-> | ->]]]; simpl; eauto.
Qed.

(* ------------------------------------------------------------------ *)
(** *** [change_settings] without callbacks, and with one that raises *)

(** X6: with [enabled] false, [change_settings] enters no callback and
    leaves the plugin's state alone.  When it returns, the table has the
    same keys, the entry of [key] has the decoded value in front of its
    old tail, every other entry is as before, and the trace has gained
    the store alone; when it raises, the world is exactly as before. *)
Theorem change_settings_disabled_frame
    (w : world) (key : string) (new_value : pyval) :
  match change_settings false key new_value w with
  | Done _ w' =>
      exists s v old rest,
        settings (w_self w) = Some s /\
        dict_get key s = Some (old :: rest) /\
        _to_value (w_self w) key new_value = Ok v /\
        w' = {| w_self := set_settings (Some (dict_set key (v :: rest) s))
                            (w_self w);
                w_user := w_user w;
                w_trace := w_trace w ++ [Store_setting key v] |} /\
        dict_keys (dict_set key (v :: rest) s) = dict_keys s /\
        (forall k, k <> key ->
                   dict_get k (dict_set key (v :: rest) s) = dict_get k s)
  | Raised e w' => w' = w
  end.
Proof.
  unfold change_settings, bind, get_self, ret, lift, store_setting.
  destruct (_to_value (w_self w) key new_value) as [v|e] eqn:Ev;
    [|reflexivity].
  unfold ret. destruct (settings (w_self w)) as [s|] eqn:Es; [|reflexivity].
  destruct (dict_get key s) as [entry|] eqn:Eg; [|reflexivity].
  destruct entry as [|old rest]; [reflexivity|]. simpl.
  exists s, v, old, rest.
  split; [reflexivity|]. split; [exact Eg|]. split; [reflexivity|].
  split; [reflexivity|]. split.
  - apply dict_keys_set_present. intros Hn.
    discriminate (eq_trans (eq_sym Eg) Hn).
  - intros k Hk. now apply dict_get_set_other.
Qed.

(** X7: when [before_change_settings] raises, [change_settings] raises the
    same exception: the value is not decoded, nothing is stored and
    [after_change_settings] is not entered; the world is the one the
    callback left. *)
Theorem change_settings_before_raises
    (w : world) (key : string) (new_value : pyval)
    (cb : settings_cb) (e : exn) (s : option settings_dict) (u : U) :
  before_change_settings (callbacks (w_self w)) = Some cb ->
  cb key new_value (settings (w_self w)) (w_user w) = CbRaise e s u ->
  change_settings true key new_value w =
    Raised e
      {| w_self := set_settings s (w_self w); w_user := u;
         w_trace := w_trace w ++
           [Enter_before_change_settings key new_value
              (settings (w_self w))] |}.
Proof.
  intros Hcb Hraise.
  unfold change_settings, bind, get_self. rewrite Hcb.
  unfold log_event, invoke. simpl. now rewrite Hraise.
Qed.

(* ------------------------------------------------------------------ *)
(** *** [process_frame]: every way out *)

(** X8: whatever the plugin's callback does, a frame that
    [process_frame] returns has the shape of the input frame, and the
    call has left the trace and the identity and mappings of the pipeline
    alone. *)
Theorem process_frame_keeps_shape
    (w w' : world) (frame out : ndarray) (width height frame_num : Z) :
  process_frame frame width height frame_num w = Done out w' ->
  shape out = shape frame /\
  w_trace w' = w_trace w /\
  file (w_self w') = file (w_self w) /\
  mappings (w_self w') = mappings (w_self w).
Proof.
  unfold process_frame, bind, get_self, invoke.
  destruct (on_frame_process (callbacks (w_self w)) frame width height
              frame_num (settings (w_self w)) (w_user w))
    as [[a | v] s u | e s u]; try discriminate.
  unfold raise, ret.
  destruct (shape_eqb (shape frame) (shape a)) eqn:E; simpl;
    [|discriminate].
  intros [= <- <-]. apply shape_eqb_eq in E. simpl. auto.
Qed.

(** X9: an exception raised by [on_frame_process] leaves [process_frame]
    unchanged, and a returned object that is not an array makes it raise
    [AttributeError]; in both cases with the world the callback left. *)
Theorem process_frame_propagates
    (w : world) (frame : ndarray) (width height frame_num : Z)
    (s : option settings_dict) (u : U) :
  let w' := {| w_self := set_settings s (w_self w); w_user := u;
               w_trace := w_trace w |} in
  (forall e,
      on_frame_process (callbacks (w_self w)) frame width height frame_num
        (settings (w_self w)) (w_user w) = CbRaise e s u ->
      process_frame frame width height frame_num w = Raised e w') /\
  (forall v,
      on_frame_process (callbacks (w_self w)) frame width height frame_num
        (settings (w_self w)) (w_user w) = CbRet (ObjOther v) s u ->
      process_frame frame width height frame_num w = Raised AttributeError w').
Proof.
  intros w'. split; intros x H;
    unfold process_frame, bind, get_self, invoke; now rewrite H.
Qed.

(* ------------------------------------------------------------------ *)
(** *** The map that [load_pipelines] returns *)

Lemma scan_files_returned (logger : option Logger) (files : list string) :
  forall acc log ps log',
  scan_files logger files acc log = (Ok ps, log') ->
  ps = insert_all (loaded_from files) acc /\
  log' = log_to logger (records_of files) log.
Proof.
  induction files as [|f files IH]; intros acc log ps log' H.
  - simpl in H. injection H as <- <-. split; [reflexivity|].
    unfold log_to. destruct logger; simpl; now rewrite ?app_nil_r.
  - cbn [scan_files] in H. cbn [loaded_from records_of flat_map].
    destruct (load_file f) as [p | ex] eqn:E.
    + destruct (IH _ _ _ _ H) as [-> ->]. split; [reflexivity|].
      simpl. now rewrite log_to_app.
    + destruct (isinstance_Exception ex); [|discriminate H].
      destruct (IH _ _ _ _ H) as [-> ->]. split; [reflexivity|].
      simpl. now rewrite log_to_app.
Qed.

Lemma NoDup_snoc {A} (l : list A) (a : A) :
  NoDup l -> ~ In a l -> NoDup (l ++ [a]).
Proof.
  forget_unused.
  induction l as [|b l IH]; simpl; intros Hnd Hin.
  - constructor; [intros [] | constructor].
  - inversion Hnd as [|? ? Hb Hl]; subst. constructor.
    + rewrite in_app_iff. simpl. intros [H | [H | []]]; [tauto|].
      subst. tauto.
    + apply IH; tauto.
Qed.

Lemma dict_set_NoDup {V} (k : string) (v : V) (d : dict V) :
  NoDup (dict_keys d) -> NoDup (dict_keys (dict_set k v d)).
Proof.
  forget_unused.
  intros Hnd. destruct (in_dec string_dec k (dict_keys d)) as [Hin | Hout].
  - rewrite dict_keys_set_present; [exact Hnd|].
    intros Hn. apply dict_get_None in Hn. contradiction.
  - rewrite dict_set_new by exact Hout. rewrite dict_keys_app. simpl.
    now apply NoDup_snoc.
Qed.

Lemma insert_all_NoDup (ps : list Pipeline) : forall acc,
  NoDup (dict_keys acc) -> NoDup (dict_keys (insert_all ps acc)).
Proof.
  unfold insert_all. induction ps as [|p ps IH]; simpl; intros acc H.
  - exact H.
  - apply IH. now apply dict_set_NoDup.
Qed.

Lemma load_file_settings (f : string) (p : Pipeline) :
  load_file f = Ok p ->
  forall s key e, settings p = Some s -> In (key, e) s ->
                  (5 <= List.length e)%nat /\ In key (dict_keys (mappings p)).
Proof.
  unfold load_file. intros H. inv_rbind H. unfold _build_pipeline in H.
  destruct (m_on_frame_process a); [|discriminate].
  unfold Pipeline_init in H. inv_rbind H. injection H as <-. simpl.
  intros s key e Hs Hin. rewrite Hs in E0. split.
  - now apply (build_mappings_lengths s [] a0 E0 key e).
  - apply (build_mappings_keys s [] a0 key E0). right.
    unfold dict_keys. apply in_map_iff. now exists (key, e).
Qed.

(** X10: the map that [load_pipelines] returns has distinct keys; each
    pipeline is under the base name of its own path; and each settings
    entry of each pipeline has at least five elements and a mapping. *)
Theorem load_pipelines_well_formed
    (logger : option Logger) (ps : dict Pipeline) (log : list log_record) :
  load_pipelines logger = (Ok ps, log) ->
  NoDup (dict_keys ps) /\
  (forall k p, In (k, p) ps -> k = file p /\ k = basename (path p)) /\
  (forall k p s key e,
      In (k, p) ps -> settings p = Some s -> In (key, e) s ->
      (5 <= List.length e)%nat /\ In key (dict_keys (mappings p))).
Proof.
  unfold load_pipelines.
  destruct (find_pipeline_dir _PIPELINE_DIRS None) as [d|]; [|discriminate].
  intros H. apply scan_files_returned in H. destruct H as [-> _].
  split; [|split].
  - apply insert_all_NoDup. constructor.
  - intros k p Hin. destruct (In_insert_all _ _ _ _ Hin) as [[] | [Hp ->]].
    apply In_loaded_from in Hp. destruct Hp as (f & _ & Hl).
    destruct (load_file_key f p Hl) as [Hfile Hpath].
    split; [reflexivity|]. now rewrite Hpath.
  - intros k p s key e Hin Hs He.
    destruct (In_insert_all _ _ _ _ Hin) as [[] | [Hp _]].
    apply In_loaded_from in Hp. destruct Hp as (f & _ & Hl).
    now apply (load_file_settings f p Hl s key e).
Qed.

Lemma scan_files_stops (logger : option Logger) (pre : list string) :
  forall f post e acc log,
  (forall g x, In g pre -> load_file g = Err x ->
               isinstance_Exception x = true) ->
  load_file f = Err e ->
  isinstance_Exception e = false ->
  scan_files logger (pre ++ f :: post) acc log =
    (Err e, log_to logger (records_of pre) log).
Proof.
  induction pre as [|g pre IH]; intros f post e acc log Hpre Hf He.
  - simpl. rewrite Hf, He. unfold log_to.
    destruct logger; simpl; now rewrite ?app_nil_r.
  - assert (Hpre' : forall g0 x, In g0 pre -> load_file g0 = Err x ->
                               isinstance_Exception x = true)
      by (intros g0 x Hin; apply Hpre; now right).
    cbn [app scan_files records_of flat_map].
    destruct (load_file g) as [p | x] eqn:E.
    + rewrite (IH f post e _ _ Hpre' Hf He). now rewrite log_to_app.
    + rewrite (Hpre g x (or_introl eq_refl) E).
      rewrite (IH f post e _ _ Hpre' Hf He). now rewrite log_to_app.
Qed.

(** X11: when running a file raises an exception that does not derive
    from [Exception], [load_pipelines] raises it: the files after it are
    not looked at, the pipelines loaded before it are lost to the caller,
    and the log holds the records of the files before it. *)
Theorem load_pipelines_stops_at_exit
    (logger : option Logger) (pipeline_dir : string)
    (pre post : list string) (f : string) (e : exn) :
  find_pipeline_dir _PIPELINE_DIRS None = Some pipeline_dir ->
  glob (pipeline_dir ++ "/*.py")%string = pre ++ f :: post ->
  (forall g x, In g pre -> load_file g = Err x ->
               isinstance_Exception x = true) ->
  load_file f = Err e ->
  isinstance_Exception e = false ->
  load_pipelines logger = (Err e, log_to logger (records_of pre) []).
Proof.
  intros Hdir Hglob Hpre Hf He. unfold load_pipelines.
  rewrite Hdir, Hglob. now apply scan_files_stops.
Qed.

Lemma scan_files_fst (l1 l2 : option Logger) (files : list string) :
  forall acc log1 log2,
  fst (scan_files l1 files acc log1) = fst (scan_files l2 files acc log2).
Proof.
  induction files as [|f files IH]; intros acc log1 log2; simpl.
  - reflexivity.
  - destruct (load_file f) as [p | ex]; [apply IH|].
    destruct (isinstance_Exception ex); [apply IH | reflexivity].
Qed.

Lemma scan_files_silent (files : list string) : forall acc log,
  snd (scan_files None files acc log) = log.
Proof.
  induction files as [|f files IH]; intros acc log; simpl.
  - reflexivity.
  - destruct (load_file f) as [p | ex]; [apply IH|].
    destruct (isinstance_Exception ex); [apply IH | reflexivity].
Qed.

(** X12: what [load_pipelines] returns or raises does not depend on the
    logger, and without a logger it logs nothing. *)
Theorem load_pipelines_logger_free (l1 l2 : option Logger) :
  fst (load_pipelines l1) = fst (load_pipelines l2) /\
  snd (load_pipelines None) = [].
Proof.
  unfold load_pipelines.
  destruct (find_pipeline_dir _PIPELINE_DIRS None) as [d|].
  - split; [apply scan_files_fst | apply scan_files_silent].
  - split; reflexivity.
Qed.

(* ------------------------------------------------------------------ *)
(** *** When [save_settings] writes *)

Lemma save_values_returns (s : settings_dict) : forall acc,
  (exists b, save_values s acc = Ok b) <-> entries_nonempty s.
Proof.
  induction s as [|[key entry] s IH]; intros acc; cbn [save_values].
  - split; [intros _ k e [] | intros _; now exists acc].
  - destruct entry as [|v tl]; simpl.
    + split; [intros [b H]; discriminate H|].
      intros H. now destruct (H key [] (or_introl eq_refl)).
    + rewrite IH. split.
      * intros H k e [[= <- <-] | Hin]; [discriminate | now apply (H k)].
      * intros H k e Hin. apply (H k). now right.
Qed.

Lemma save_values_error (s : settings_dict) : forall acc e,
  save_values s acc = Err e -> e = IndexError.
Proof.
  induction s as [|[key entry] s IH]; intros acc e; cbn [save_values];
    [discriminate|].
  destruct entry as [|v tl]; simpl; [now intros [= <-] | apply IH].
Qed.

Lemma save_pipelines_returns (ps : dict Pipeline) : forall acc,
  (exists r, save_pipelines ps acc = Ok r) <-> pipelines_nonempty ps.
Proof.
  induction ps as [|[f p] ps IH]; intros acc; cbn [save_pipelines].
  - split; [intros _ f p s [] | intros _; now exists acc].
  - destruct (settings p) as [s|] eqn:Es.
    + pose proof (save_values_returns s []) as Hv.
      destruct (save_values s []) as [b|e]; cbn [rbind].
      * rewrite IH. split.
        -- intros H f0 p0 s0 [[= <- <-] | Hin] Hs0.
           ++ rewrite Es in Hs0. injection Hs0 as <-. apply Hv. now exists b.
           ++ now apply (H f0 p0).
        -- intros H f0 p0 s0 Hin. apply (H f0 p0). now right.
      * split; [intros [r H]; discriminate H|].
        intros H. assert (Hs : entries_nonempty s)
          by (apply (H f p s); [now left | exact Es]).
        apply Hv in Hs. destruct Hs as [b Hb]. discriminate Hb.
    + rewrite IH. split.
      * intros H f0 p0 s0 [[= <- <-] | Hin] Hs0; [congruence|].
        now apply (H f0 p0).
      * intros H f0 p0 s0 Hin. apply (H f0 p0). now right.
Qed.

Lemma save_pipelines_error (ps : dict Pipeline) : forall acc e,
  save_pipelines ps acc = Err e -> e = IndexError.
Proof.
  induction ps as [|[f p] ps IH]; intros acc e; cbn [save_pipelines];
    [discriminate|].
  destruct (settings p) as [s|]; [|apply IH].
  destruct (save_values s []) as [b|e0] eqn:E; cbn [rbind]; [apply IH|].
  intros [= <-]. now apply (save_values_error s []).
Qed.

(** X13: [save_settings] returns exactly when no settings entry is empty
    and the file can be opened for writing.  It raises [IndexError] for
    an empty entry, before the file is opened, and [OSError] when only
    the opening fails.  When it returns, the settings file holds a JSON
    object and every other file is as before. *)
Theorem save_settings_outcome
    (ps : dict Pipeline) (order active : list string)
    (dir_path : string) (fs : filesystem) :
  ((exists fs', save_settings ps order active dir_path fs = Ok fs') <->
   pipelines_nonempty ps /\ fs_writable fs (settings_path dir_path) = true) /\
  (forall e, save_settings ps order active dir_path fs = Err e ->
     (e = IndexError /\ ~ pipelines_nonempty ps) \/
     (e = OSError /\ pipelines_nonempty ps /\
      fs_writable fs (settings_path dir_path) = false)) /\
  (forall fs', save_settings ps order active dir_path fs = Ok fs' ->
     (exists record,
        fs_read fs' (settings_path dir_path) = Some (Json (PDict record))) /\
     (forall q, q <> settings_path dir_path -> fs_read fs' q = fs_read fs q)).
Proof.
  unfold save_settings.
  set (record0 := dict_set "active" (PList (map PStr active))
                    (dict_set "order" (PList (map PStr order)) [])).
  pose proof (save_pipelines_returns ps record0) as Hret.
  pose proof (save_pipelines_error ps record0) as Herr.
  destruct (save_pipelines ps record0) as [record|e0]; cbn [rbind].
  - assert (Hne : pipelines_nonempty ps) by (apply Hret; now exists record).
    destruct (fs_writable fs (settings_path dir_path)) eqn:Ew.
    + split; [|split].
      * split; [intros _; auto | intros _; eauto].
      * discriminate.
      * intros fs' [= <-]. split.
        -- exists record. simpl. now rewrite String.eqb_refl.
        -- intros q Hq. simpl. apply String.eqb_neq in Hq. now rewrite Hq.
    + split; [|split].
      * split; [intros [fs' H]; discriminate H | intros [_ H]; discriminate H].
      * intros e [= <-]. right. auto.
      * discriminate.
  - split; [|split].
    + split; [intros [fs' H]; discriminate H|].
      intros [H _]. apply Hret in H. destruct H as [r H]. discriminate H.
    + intros e [= <-]. left. split; [now apply Herr|].
      intros H. apply Hret in H. destruct H as [r H]. discriminate H.
    + discriminate.
Qed.

(* ------------------------------------------------------------------ *)
(** *** What [load_settings] can change *)

Lemma settings_agree_refl (s : settings_dict) :
  entries_nonempty s -> settings_agree s s.
Proof.
  forget_unused.
  unfold settings_agree, entry_agree.
  induction s as [|[k e] s IH]; intros H; constructor.
  - simpl. assert (e <> []) by (apply (H k); now left). auto.
  - apply IH. intros k' e' Hin. apply (H k'). now right.
Qed.

Lemma settings_agree_trans (s1 s2 s3 : settings_dict) :
  settings_agree s1 s2 -> settings_agree s2 s3 -> settings_agree s1 s3.
Proof.
  forget_unused.
  unfold settings_agree, entry_agree. intros H. revert s3.
  induction H as [|a b s1 s2 (Hk & Ha & Hb & Ht) _ IH]; intros s3 H23;
    inversion H23 as [|? c ? s3' (Hk' & _ & Hc & Ht') H23']; subst;
    constructor; auto.
  repeat split; congruence.
Qed.

Lemma settings_agree_nonempty_r (s s' : settings_dict) :
  settings_agree s s' -> entries_nonempty s'.
Proof.
  forget_unused.
  unfold settings_agree, entry_agree.
  induction 1 as [|a b s s' (_ & _ & Hb & _) _ IH]; intros k e Hin.
  - contradiction.
  - destruct Hin as [-> | Hin]; [exact Hb | now apply (IH k)].
Qed.

Lemma settings_agree_set (s : settings_dict) (key : string)
    (old v : pyval) (tl : list pyval) :
  entries_nonempty s ->
  dict_get key s = Some (old :: tl) ->
  settings_agree s (dict_set key (v :: tl) s).
Proof.
  forget_unused.
  induction s as [|[k e] s IH]; simpl; intros Hne Hget; [discriminate|].
  assert (Hrest : entries_nonempty s)
    by (intros k' e' Hin; apply (Hne k'); now right).
  destruct (String.eqb key k) eqn:E.
  - apply String.eqb_eq in E. subst k. injection Hget as ->.
    constructor; [|now apply settings_agree_refl].
    simpl. unfold entry_agree. simpl. repeat split; discriminate.
  - constructor; [|now apply IH].
    simpl. unfold entry_agree.
    assert (e <> []) by (apply (Hne k); now left). auto.
Qed.

Lemma apply_values_agree (items : dict pyval) : forall s,
  entries_nonempty s -> settings_agree s (fst (apply_values items s)).
Proof.
  forget_unused.
  induction items as [|[key value] items IH]; intros s Hne; simpl.
  - now apply settings_agree_refl.
  - destruct (dict_get key s) as [entry|] eqn:E; [|now apply IH].
    destruct entry as [|old tl]; [now apply dict_get_In, Hne in E|]. simpl.
    pose proof (settings_agree_set s key old value tl Hne E) as Hstep.
    eapply settings_agree_trans; [exact Hstep|].
    apply IH. now apply (settings_agree_nonempty_r s).
Qed.

Lemma pipeline_agree_refl (p : Pipeline) :
  (forall s, settings p = Some s -> entries_nonempty s) ->
  pipeline_agree p p.
Proof.
  intros H. split; [reflexivity|].
  destruct (settings p) as [s|]; [|exact I].
  now apply settings_agree_refl, H.
Qed.

Lemma pipeline_agree_trans (p1 p2 p3 : Pipeline) :
  pipeline_agree p1 p2 -> pipeline_agree p2 p3 -> pipeline_agree p1 p3.
Proof.
  intros [H12 S12] [H23 S23]. split; [congruence|].
  destruct (settings p1), (settings p2), (settings p3);
    try contradiction; try exact I.
  now apply (settings_agree_trans _ s0).
Qed.

Lemma pipelines_agree_refl (ps : dict Pipeline) :
  pipelines_nonempty ps -> pipelines_agree ps ps.
Proof.
  unfold pipelines_agree.
  induction ps as [|[f p] ps IH]; intros H; constructor.
  - split; [reflexivity|]. apply pipeline_agree_refl.
    intros s Hs. apply (H f p s); [now left | exact Hs].
  - apply IH. intros f' p' s' Hin. apply (H f' p'). now right.
Qed.

Lemma pipelines_agree_trans (ps1 ps2 ps3 : dict Pipeline) :
  pipelines_agree ps1 ps2 -> pipelines_agree ps2 ps3 ->
  pipelines_agree ps1 ps3.
Proof.
  unfold pipelines_agree. intros H. revert ps3.
  induction H as [|a b ps1 ps2 (Hk & Hp) _ IH]; intros ps3 H23;
    inversion H23 as [|? c ? ps3' (Hk' & Hp') H23']; subst;
    constructor; auto.
  split; [congruence | now apply (pipeline_agree_trans _ (snd b))].
Qed.

Lemma pipelines_agree_nonempty_r (ps ps' : dict Pipeline) :
  pipelines_agree ps ps' -> pipelines_nonempty ps'.
Proof.
  unfold pipelines_agree.
  induction 1 as [|a b ps ps' (_ & _ & Hs) _ IH]; intros f p s Hin Hsp.
  - contradiction.
  - destruct Hin as [-> | Hin]; [|now apply (IH f p)].
    simpl in Hs. rewrite Hsp in Hs.
    destruct (settings (snd a)); [|contradiction].
    now apply (settings_agree_nonempty_r s0).
Qed.

Lemma pipelines_agree_set (ps : dict Pipeline) (f : string)
    (p p' : Pipeline) :
  pipelines_nonempty ps ->
  dict_get f ps = Some p ->
  pipeline_agree p p' ->
  pipelines_agree ps (dict_set f p' ps).
Proof.
  induction ps as [|[k q] ps IH]; simpl; intros Hne Hget Hag; [discriminate|].
  assert (Hrest : pipelines_nonempty ps)
    by (intros k' q' s' Hin; apply (Hne k' q'); now right).
  destruct (String.eqb f k) eqn:E.
  - apply String.eqb_eq in E. subst k. injection Hget as ->.
    constructor; [now split | now apply pipelines_agree_refl].
  - constructor; [|now apply IH].
    split; [reflexivity|]. apply pipeline_agree_refl.
    intros s Hs. apply (Hne k q s); [now left | exact Hs].
Qed.

Lemma apply_settings_agree (items : dict pyval) : forall ps,
  pipelines_nonempty ps ->
  pipelines_agree ps (fst (apply_settings items ps)).
Proof.
  induction items as [|[p_file p_settings] items IH]; intros ps Hne;
    cbn [apply_settings].
  - now apply pipelines_agree_refl.
  - destruct (str_in p_file ["order"; "active"]); [now apply IH|].
    destruct (dict_get p_file ps) as [p|] eqn:Eget; [|now apply IH].
    destruct (settings p) as [s|] eqn:Es; [|now apply IH].
    destruct p_settings as [| | | | | | kv];
      try (simpl; now apply pipelines_agree_refl).
    assert (Hs : entries_nonempty s)
      by (apply (Hne p_file p s); [now apply dict_get_In | exact Es]).
    pose proof (apply_values_agree kv s Hs) as Hv.
    destruct (apply_values kv s) as [s' err]. simpl in Hv.
    assert (Hstep : pipelines_agree ps
                      (dict_set p_file (set_settings (Some s') p) ps)).
    { apply (pipelines_agree_set ps p_file p); auto.
      split; [reflexivity|]. simpl. now rewrite Es. }
    destruct err as [e|]; [exact Hstep|].
    eapply pipelines_agree_trans; [exact Hstep|].
    apply IH. now apply (pipelines_agree_nonempty_r ps).
Qed.

(** X14: whatever the settings file holds, and whether [load_settings]
    returns or raises, the pipelines it leaves are the ones it was given
    up to the current values of their settings: the same files in the
    same order, the same callbacks and mappings, the same setting keys,
    and the same elements after the first in every entry. *)
Theorem load_settings_keeps_declarations
    (ps : dict Pipeline) (dir_path : string) (fs : filesystem) :
  pipelines_nonempty ps ->
  pipelines_agree ps (pipelines_of (load_settings ps dir_path fs)).
Proof.
  intros Hne. unfold load_settings.
  destruct (fs_read fs (settings_path dir_path)) as [[| v]|];
    try (simpl; now apply pipelines_agree_refl).
  destruct v as [| | | | | | record];
    try (simpl; now apply pipelines_agree_refl).
  pose proof (apply_settings_agree record ps Hne) as H.
  destruct (apply_settings record ps) as [ps' [e|]]; simpl in *; [exact H|].
  now destruct (reconcile record ps').
Qed.

(* ------------------------------------------------------------------ *)
(** *** The runtime data of a settings file *)

Lemma apply_values_keys (items : dict pyval) : forall s,
  dict_keys (fst (apply_values items s)) = dict_keys s.
Proof.
  forget_unused.
  induction items as [|[key value] items IH]; intros s; simpl.
  - reflexivity.
  - destruct (dict_get key s) as [entry|] eqn:E; [|apply IH].
    destruct entry as [|old tl]; simpl; [reflexivity|].
    rewrite IH. apply dict_keys_set_present.
    intros Hn. discriminate (eq_trans (eq_sym E) Hn).
Qed.

Lemma apply_settings_keys (items : dict pyval) : forall ps,
  dict_keys (fst (apply_settings items ps)) = dict_keys ps.
Proof.
  induction items as [|[p_file p_settings] items IH]; intros ps;
    cbn [apply_settings].
  - reflexivity.
  - destruct (str_in p_file ["order"; "active"]); [apply IH|].
    destruct (dict_get p_file ps) as [p|] eqn:Eget; [|apply IH].
    destruct (settings p) as [s|]; [|apply IH].
    destruct p_settings as [| | | | | | kv]; try reflexivity.
    destruct (apply_values kv s) as [s' err].
    assert (Hk : dict_keys (dict_set p_file (set_settings (Some s') p) ps)
                 = dict_keys ps).
    { apply dict_keys_set_present.
      intros Hn. discriminate (eq_trans (eq_sym Eget) Hn). }
    destruct err as [e|]; [exact Hk|]. now rewrite IH.
Qed.

Lemma existsb_is_str_In (k : string) (l : list pyval) :
  existsb (is_str k) l = true <-> In (PStr k) l.
Proof.
  forget_unused.
  rewrite existsb_exists. split.
  - intros (x & Hin & Hx). destruct x; try discriminate.
    simpl in Hx. apply String.eqb_eq in Hx. now subst.
  - intros H. exists (PStr k). split; [exact H|].
    simpl. apply String.eqb_refl.
Qed.

Lemma keep_loaded_In (l : list pyval) (ps : dict Pipeline) :
  forall kept, keep_loaded l ps = Ok kept ->
  forall k, In k kept <-> In (PStr k) l /\ dict_mem k ps = true.
Proof.
  forget_unused.
  induction l as [|x l IH]; intros kept H k; cbn [keep_loaded] in H.
  - injection H as <-. simpl. tauto.
  - do 2 inv_rbind H. injection H as <-. specialize (IH a0 eq_refl k).
    destruct x; simpl in E; try discriminate E; injection E as <-;
      try (rewrite IH; simpl; split;
           [tauto | intros [[Hx | Hx] Hm]; [discriminate Hx | tauto]]).
    destruct (dict_mem s ps) eqn:Em; simpl; rewrite IH; split.
    + intros [<- | [H1 H2]]; auto.
    + intros [[[= ->] | H1] H2]; auto.
    + tauto.
    + intros [[[= ->] | H1] H2]; [congruence | auto].
Qed.

Lemma keep_new_list (keys : list string) (l : list pyval) :
  keep_new keys (PList l) =
    Ok (filter (fun k => negb (existsb (is_str k) l)) keys).
Proof.
  forget_unused.
  induction keys as [|k keys IH]; simpl; [reflexivity|].
  rewrite IH. simpl. now destruct (existsb (is_str k) l).
Qed.

(** X15: when the settings file holds a record whose [order] is a list,
    of whatever elements, and [load_settings] returns, the returned order
    holds exactly the loaded keys: none is missing and none is foreign.
    The active list holds loaded keys only, [to_load] is the active list,
    [to_unload] and [changes] are empty, and the pipelines keep their
    keys. *)
Theorem load_settings_order_covers
    (ps ps' : dict Pipeline) (dir_path : string) (fs : filesystem)
    (record : dict pyval) (l : list pyval)
    (data : PipelineRuntimeData) (flag : bool) :
  fs_read fs (settings_path dir_path) = Some (Json (PDict record)) ->
  dict_get "order" record = Some (PList l) ->
  load_settings ps dir_path fs = Loaded ps' data flag ->
  flag = true /\
  dict_keys ps' = dict_keys ps /\
  (forall k, In k (pipeline_order data) <-> In k (dict_keys ps)) /\
  (forall k, In k (active_pipelines data) -> In k (dict_keys ps)) /\
  to_load data = active_pipelines data /\
  to_unload data = [] /\ changes data = [].
Proof.
  intros Hfile Horder. unfold load_settings. rewrite Hfile.
  pose proof (apply_settings_keys record ps) as Hkeys.
  destruct (apply_settings record ps) as [ps1 [e|]]; [discriminate|].
  simpl in Hkeys. unfold reconcile, dict_item. rewrite Horder.
  cbn [rbind py_iter]. rewrite keep_new_list.
  destruct (keep_loaded l ps1) as [kept|] eqn:Ek; cbn [rbind];
    [|discriminate].
  destruct (dict_get "active" record) as [pa|]; cbn [rbind]; [|discriminate].
  destruct (py_iter pa) as [la|]; cbn [rbind]; [|discriminate].
  destruct (keep_loaded la ps1) as [act|] eqn:Ea; cbn [rbind];
    [|discriminate].
  intros [= <- <- <-]. simpl.
  split; [reflexivity|]. split; [exact Hkeys|].
  split; [|split; [|auto]].
  - intros k. rewrite in_app_iff, (keep_loaded_In l ps1 kept Ek k).
    rewrite filter_In, negb_true_iff, <- Hkeys, <- (dict_mem_In k ps1).
    split.
    + intros [[_ H] | [H _]]; exact H.
    + intros Hm. destruct (existsb (is_str k) l) eqn:Ex.
      * left. split; [now apply existsb_is_str_In | exact Hm].
      * right. split; [exact Hm | reflexivity].
  - intros k Hin. apply (keep_loaded_In la ps1 act Ea k) in Hin.
    rewrite <- Hkeys. now apply dict_mem_In.
Qed.

(** X16: [load_settings] is not atomic.  When the record has no [order],
    or has a list of strings as [order] and no [active], the call raises
    [KeyError], and it does so after the first loop has run: the values
    of the plugin blocks are already in the pipelines it leaves. *)
Theorem load_settings_missing_list
    (ps : dict Pipeline) (dir_path : string) (fs : filesystem)
    (record : dict pyval) :
  fs_read fs (settings_path dir_path) = Some (Json (PDict record)) ->
  blocks_are_dicts record ->
  pipelines_nonempty ps ->
  (dict_get "order" record = None \/
   (exists o, dict_get "order" record = Some (PList (map PStr o))) /\
   dict_get "active" record = None) ->
  exists ps',
    apply_settings record ps = (ps', None) /\
    load_settings ps dir_path fs = LoadFailed KeyError ps'.
Proof.
  intros Hfile Hblocks Hne Hmiss.
  destruct (apply_settings_ok record ps Hblocks Hne) as (ps' & Happly & _).
  exists ps'. split; [exact Happly|].
  unfold load_settings. rewrite Hfile, Happly.
  unfold reconcile, dict_item.
  destruct Hmiss as [Ho | [[o Ho] Ha]]; rewrite Ho; [reflexivity|].
  cbn [rbind py_iter]. rewrite keep_loaded_strs, keep_new_list.
  cbn [rbind]. now rewrite Ha.
Qed.

Lemma dict_set_same {V} (k : string) (v : V) (d : dict V) :
  dict_get k d = Some v -> dict_set k v d = d.
Proof.
  forget_unused.
  induction d as [|[k' v'] d IH]; simpl; [discriminate|].
  destruct (String.eqb k k') eqn:E.
  - apply String.eqb_eq in E. subst. now intros [= ->].
  - intros H. now rewrite IH.
Qed.

Lemma apply_values_undeclared (kv : dict pyval) (s : settings_dict) :
  (forall key, In key (dict_keys kv) -> dict_get key s = None) ->
  apply_values kv s = (s, None).
Proof.
  forget_unused.
  induction kv as [|[key value] kv IH]; simpl; intros H; [reflexivity|].
  rewrite (H key) by now left. apply IH. intros k Hin. apply H. now right.
Qed.

Lemma apply_settings_ignored (items : dict pyval) (ps : dict Pipeline) :
  (forall f v, In (f, v) items -> block_ignored ps f v) ->
  apply_settings items ps = (ps, None).
Proof.
  induction items as [|[f v] items IH]; intros H; cbn [apply_settings];
    [reflexivity|].
  assert (IH' : apply_settings items ps = (ps, None))
    by (apply IH; intros f' v' Hin; apply H; now right).
  destruct (str_in f ["order"; "active"]) eqn:Er; [exact IH'|].
  destruct (H f v (or_introl eq_refl))
    as [-> | [-> | [Hn | (p & Hp & Hcase)]]]; try discriminate Er.
  - now rewrite Hn.
  - rewrite Hp. destruct Hcase as [Hs | (s & kv & Hs & -> & Hkv)];
      rewrite Hs; [exact IH'|].
    rewrite (apply_values_undeclared kv s Hkv), <- Hs, set_settings_self.
    now rewrite (dict_set_same f p ps Hp).
Qed.

(** X17: blocks for plugins that are not loaded, blocks for plugins
    without settings, and setting keys that a plugin does not declare are
    ignored: a record made of such blocks leaves every pipeline as it
    was, whether the call then returns or raises. *)
Theorem load_settings_ignores_unknown
    (ps : dict Pipeline) (dir_path : string) (fs : filesystem)
    (record : dict pyval) :
  fs_read fs (settings_path dir_path) = Some (Json (PDict record)) ->
  (forall f v, In (f, v) record -> block_ignored ps f v) ->
  pipelines_of (load_settings ps dir_path fs) = ps.
Proof.
  intros Hfile Hign. unfold load_settings.
  rewrite Hfile, (apply_settings_ignored record ps Hign).
  now destruct (reconcile record ps).
Qed.

Lemma keep_loaded_unhashable (l : list pyval) (ps : dict Pipeline) :
  existsb unhashable l = true -> keep_loaded l ps = Err TypeError.
Proof.
  induction l as [|x l IH]; simpl; intros H; [discriminate|].
  destruct (unhashable x) eqn:Ex.
  - destruct x; try discriminate Ex; reflexivity.
  - simpl in H. rewrite (IH H).
    destruct x; try discriminate Ex; reflexivity.
Qed.

(** X18: a record whose [order] is [null], a boolean or a number, or a
    list with a list or an object among its elements, makes
    [load_settings] raise [TypeError], again after the values of the
    plugin blocks have been applied. *)
Theorem load_settings_bad_order
    (ps : dict Pipeline) (dir_path : string) (fs : filesystem)
    (record : dict pyval) (v : pyval) :
  fs_read fs (settings_path dir_path) = Some (Json (PDict record)) ->
  blocks_are_dicts record ->
  pipelines_nonempty ps ->
  dict_get "order" record = Some v ->
  not_iterable v = true \/
  (exists l, v = PList l /\ existsb unhashable l = true) ->
  exists ps',
    apply_settings record ps = (ps', None) /\
    load_settings ps dir_path fs = LoadFailed TypeError ps'.
Proof.
  intros Hfile Hblocks Hne Ho Hbad.
  destruct (apply_settings_ok record ps Hblocks Hne) as (ps' & Happly & _).
  exists ps'. split; [exact Happly|].
  unfold load_settings. rewrite Hfile, Happly.
  unfold reconcile, dict_item. rewrite Ho. cbn [rbind].
  destruct Hbad as [Hv | (l & -> & Hl)].
  - destruct v; try discriminate Hv; reflexivity.
  - cbn [py_iter rbind]. now rewrite (keep_loaded_unhashable l ps' Hl).
Qed.

Lemma load_pipelines_nonempty
    (logger : option Logger) (ps : dict Pipeline) (log : list log_record) :
  load_pipelines logger = (Ok ps, log) -> pipelines_nonempty ps.
Proof.
  unfold load_pipelines.
  destruct (find_pipeline_dir _PIPELINE_DIRS None) as [d|]; [|discriminate].
  intros H. apply scan_files_returned in H. destruct H as [-> _].
  intros f p s Hin Hs key e He.
  destruct (In_insert_all _ _ _ _ Hin) as [[] | [Hp _]].
  apply In_loaded_from in Hp. destruct Hp as (g & _ & Hl).
  destruct (load_file_settings g p Hl s key e Hs He) as [Hlen _].
  intros ->. simpl in Hlen. lia.
Qed.

(** X19: on the pipelines that [load_pipelines] returns, [load_settings]
    does not raise for any record in the persisted format (lists of keys
    under [order] and [active], a dict per plugin block): it returns the
    reconciled runtime data and the flag [True]. *)
Theorem load_settings_after_load_pipelines
    (logger : option Logger) (ps : dict Pipeline) (log : list log_record)
    (dir_path : string) (fs : filesystem)
    (record : dict pyval) (order active : list string) :
  load_pipelines logger = (Ok ps, log) ->
  fs_read fs (settings_path dir_path) = Some (Json (PDict record)) ->
  dict_get "order" record = Some (PList (map PStr order)) ->
  dict_get "active" record = Some (PList (map PStr active)) ->
  blocks_are_dicts record ->
  exists ps',
    dict_keys ps' = dict_keys ps /\
    load_settings ps dir_path fs =
      Loaded ps'
        {| pipeline_order :=
             filter (fun p => dict_mem p ps) order ++
             filter (fun p => negb (str_in p order)) (dict_keys ps);
           active_pipelines := filter (fun p => dict_mem p ps) active;
           to_unload := [];
           to_load := filter (fun p => dict_mem p ps) active;
           changes := [] |}
        true.
Proof.
  intros Hload Hfile Ho Ha Hblocks.
  pose proof (load_pipelines_nonempty logger ps log Hload) as Hne.
  destruct (apply_settings_ok record ps Hblocks Hne)
    as (ps' & Happly & Hkeys).
  exists ps'. split; [exact Hkeys|].
  unfold load_settings. rewrite Hfile, Happly.
  rewrite (reconcile_lists _ _ _ _ Ho Ha).
  rewrite !(filter_ext_keys _ _ _ Hkeys), Hkeys. reflexivity.
Qed.

(* ------------------------------------------------------------------ *)
(** *** Loading the same file again *)

Lemma apply_values_fixed (kv : dict pyval) (s : settings_dict) :
  block_applied kv s -> apply_values kv s = (s, None).
Proof.
  forget_unused.
  induction kv as [|[key value] kv IH]; simpl; intros H; [reflexivity|].
  assert (IH' : apply_values kv s = (s, None)).
  { apply IH. intros k v e Hin. apply H. now right. }
  destruct (dict_get key s) as [e|] eqn:E; [|exact IH'].
  destruct (H key value e (or_introl eq_refl) E) as [tl ->]. simpl.
  now rewrite (dict_set_same key (value :: tl) s E).
Qed.

Lemma apply_values_other (kv : dict pyval) : forall s k,
  ~ In k (dict_keys kv) ->
  dict_get k (fst (apply_values kv s)) = dict_get k s.
Proof.
  forget_unused.
  induction kv as [|[key value] kv IH]; simpl; intros s k Hk; [reflexivity|].
  destruct (dict_get key s) as [e|] eqn:E; [|apply IH; tauto].
  destruct e as [|old tl]; simpl; [reflexivity|].
  rewrite IH by tauto. apply dict_get_set_other. intros ->. tauto.
Qed.

Lemma apply_values_applied (kv : dict pyval) : forall s s',
  NoDup (dict_keys kv) ->
  apply_values kv s = (s', None) ->
  block_applied kv s'.
Proof.
  forget_unused.
  induction kv as [|[key value] kv IH]; simpl; intros s s' Hnd H;
    [intros k v e []|].
  inversion Hnd as [|? ? Hnotin Hnd']; subst.
  destruct (dict_get key s) as [e0|] eqn:E.
  - destruct e0 as [|old tl]; simpl in H; [discriminate H|].
    intros k v e [[= <- <-] | Hin] Hget.
    + pose proof (apply_values_other kv (dict_set key (value :: tl) s) key
                    Hnotin) as Ho.
      rewrite H in Ho. simpl in Ho.
      rewrite dict_get_set_same in Ho.
      exists tl. congruence.
    + now apply (IH _ _ Hnd' H k v e).
  - intros k v e [[= <- <-] | Hin] Hget.
    + pose proof (apply_values_other kv s key Hnotin) as Ho.
      rewrite H in Ho. simpl in Ho. congruence.
    + now apply (IH _ _ Hnd' H k v e).
Qed.

Lemma apply_settings_fixed (record : dict pyval) (ps : dict Pipeline) :
  blocks_are_dicts record ->
  record_applied record ps ->
  apply_settings record ps = (ps, None).
Proof.
  induction record as [|[f v] record IH]; intros Hblocks Happ;
    cbn [apply_settings]; [reflexivity|].
  assert (IH' : apply_settings record ps = (ps, None)).
  { apply IH.
    - intros k x Hin. apply Hblocks. now right.
    - intros k kv p s Hin. apply Happ. now right. }
  destruct (str_in f ["order"; "active"]) eqn:Er; [exact IH'|].
  destruct (dict_get f ps) as [p|] eqn:Ep; [|exact IH'].
  destruct (settings p) as [s|] eqn:Es; [|exact IH'].
  destruct (Hblocks f v (or_introl eq_refl)) as [kv ->].
  - intros ->. discriminate Er.
  - intros ->. discriminate Er.
  - rewrite (apply_values_fixed kv s
               (Happ f kv p s (or_introl eq_refl) Er Ep Es)).
    rewrite <- Es, set_settings_self, (dict_set_same f p ps Ep).
    exact IH'.
Qed.

Lemma apply_settings_other (record : dict pyval) : forall ps f,
  ~ In f (dict_keys record) ->
  dict_get f (fst (apply_settings record ps)) = dict_get f ps.
Proof.
  forget_unused.
  induction record as [|[g v] record IH]; intros ps f Hf;
    cbn [apply_settings]; [reflexivity|].
  simpl in Hf.
  destruct (str_in g ["order"; "active"]); [apply IH; tauto|].
  destruct (dict_get g ps) as [p|] eqn:Ep; [|apply IH; tauto].
  destruct (settings p) as [s|]; [|apply IH; tauto].
  destruct v as [| | | | | | kv]; try reflexivity.
  destruct (apply_values kv s) as [s' err].
  assert (Hstep : dict_get f (dict_set g (set_settings (Some s') p) ps)
                  = dict_get f ps)
    by (apply dict_get_set_other; intros ->; tauto).
  destruct err as [e|]; [exact Hstep|].
  rewrite IH by tauto. exact Hstep.
Qed.

Lemma apply_settings_applied (record : dict pyval) : forall ps ps',
  NoDup (dict_keys record) ->
  (forall f kv, In (f, PDict kv) record -> NoDup (dict_keys kv)) ->
  apply_settings record ps = (ps', None) ->
  record_applied record ps'.
Proof.
  induction record as [|[g v] record IH]; intros ps ps' Hnd Hkv H;
    [intros f kv p s []|].
  inversion Hnd as [|? ? Hnotin Hnd']; subst.
  assert (Hkv' : forall f kv, In (f, PDict kv) record -> NoDup (dict_keys kv))
    by (intros f kv Hin; apply (Hkv f); now right).
  cbn [apply_settings] in H.
  assert (Hskip : forall ps0,
            apply_settings record ps0 = (ps', None) ->
            (forall kv p s, v = PDict kv ->
               str_in g ["order"; "active"] = false ->
               dict_get g ps0 = Some p -> settings p = Some s ->
               block_applied kv s) ->
            record_applied ((g, v) :: record) ps').
  { intros ps0 H0 Hhead f kv p s [Heq | Hin] Hr Hp Hs.
    - injection Heq as Hg Hv. subst f.
      pose proof (apply_settings_other record ps0 g Hnotin) as Ho.
      rewrite H0 in Ho. simpl in Ho. rewrite Hp in Ho.
      now apply (Hhead kv p s Hv Hr (eq_sym Ho) Hs).
    - now apply (IH ps0 ps' Hnd' Hkv' H0 f kv p s). }
  destruct (str_in g ["order"; "active"]) eqn:Er.
  { apply (Hskip ps H). intros; discriminate. }
  destruct (dict_get g ps) as [p|] eqn:Ep.
  2:{ apply (Hskip ps H). intros kv p s _ _ Hp.
      discriminate (eq_trans (eq_sym Ep) Hp). }
  destruct (settings p) as [s|] eqn:Es.
  2:{ apply (Hskip ps H). intros kv p0 s0 _ _ Hp Hs.
      rewrite Ep in Hp. injection Hp as <-.
      discriminate (eq_trans (eq_sym Es) Hs). }
  destruct v as [| | | | | | kv]; try discriminate H.
  destruct (apply_values kv s) as [s1 err] eqn:Ev.
  destruct err as [e|]; [discriminate H|].
  apply (Hskip _ H). intros kv0 p0 s0 [= <-] _ Hp0 Hs0.
  rewrite dict_get_set_same in Hp0. injection Hp0 as <-.
  simpl in Hs0. injection Hs0 as <-.
  apply (apply_values_applied kv s s1); [|exact Ev].
  apply (Hkv g). now left.
Qed.

(** X20: loading the same file again changes nothing.  For a record as
    [json.load] gives it (no key twice in an object) with a dict per
    plugin block, [load_settings] applied to the pipelines it has left
    leaves them as they are and gives the same result. *)
Theorem load_settings_again
    (ps : dict Pipeline) (dir_path : string) (fs : filesystem)
    (record : dict pyval) :
  fs_read fs (settings_path dir_path) = Some (Json (PDict record)) ->
  blocks_are_dicts record ->
  pipelines_nonempty ps ->
  NoDup (dict_keys record) ->
  (forall f kv, In (f, PDict kv) record -> NoDup (dict_keys kv)) ->
  load_settings (pipelines_of (load_settings ps dir_path fs)) dir_path fs
    = load_settings ps dir_path fs.
Proof.
  intros Hfile Hblocks Hne Hnd Hkv.
  destruct (apply_settings_ok record ps Hblocks Hne) as (ps' & Happly & _).
  pose proof (apply_settings_applied record ps ps' Hnd Hkv Happly) as Happ.
  pose proof (apply_settings_fixed record ps' Hblocks Happ) as Hfix.
  assert (Hfirst : load_settings ps dir_path fs =
                   match reconcile record ps' with
                   | Ok data => Loaded ps' data true
                   | Err e => LoadFailed e ps'
                   end)
    by (unfold load_settings; now rewrite Hfile, Happly).
  assert (Hof : pipelines_of (load_settings ps dir_path fs) = ps')
    by (rewrite Hfirst; now destruct (reconcile record ps')).
  rewrite Hof, Hfirst. unfold load_settings. now rewrite Hfile, Hfix.
Qed.

End PyHook.

Arguments CbRet {U A} a s u.
Arguments CbRaise {U A} e s u.
Arguments Done {U A} a w.
Arguments Raised {U A} e w.
Arguments callbacks {U} p.
Arguments settings {U} p.
Arguments mappings {U} p.
Arguments file {U} p.
Arguments set_settings {U} s p.
Arguments w_self {U} w.
Arguments w_user {U} w.
Arguments w_trace {U} w.
Arguments process_frame {U} frame width height frame_num w.
Arguments change_settings {U} int_of_str enabled key new_value w.
Arguments _to_value {U} int_of_str self key value.
Arguments load_settings {U} pipelines dir_path fs.
Arguments save_settings {U} pipelines order active dir_path fs.
Arguments Loaded {U} pipelines data from_file.
Arguments LoadFailed {U} e pipelines.

(* ================================================================== *)
(** ** A small installation

    Three plugin files in [./pipelines]: [brighten.py] adds a constant to
    every element and has no settings, [gamma.py] has one float setting
    [level] and both settings callbacks, [broken.py] has no
    [on_frame_process].  Plugin state is the list of notes the callbacks
    leave. *)

Definition notes : Type := list string.

(** Stand-ins for the builtins that the instances never reach with a float
    or a container: a text that is not a boolean's. *)
Definition demo_repr_float (f : spec_float) : string := "0.0".
Definition demo_repr_container (v : pyval) : string := "[]".

Definition demo_int_of_str (s : string) : option Z :=
  option_map Z.of_int (NilZero.int_of_string s).

(** The part of a path after its last separator. *)
Fixpoint basename_from (s acc : string) : string :=
  match s with
  | EmptyString => acc
  | String c s' =>
      if Ascii.eqb c "/" || Ascii.eqb c "092"
      then basename_from s' EmptyString
      else basename_from s' (acc ++ String c EmptyString)
  end.

Definition demo_basename (s : string) : string := basename_from s EmptyString.

Definition demo_isdir (p : string) : bool := String.eqb p "./pipelines".

Definition demo_abspath (p : string) : string :=
  "/app" ++ substring 1 (String.length p - 1) p.

Definition demo_glob (pattern : string) : list string :=
  if String.eqb pattern "/app/pipelines/*.py"
  then ["/app/pipelines/brighten.py"; "/app/pipelines/broken.py";
        "/app/pipelines/gamma.py"]
  else [].

Definition f_1_0 : spec_float := S754_finite false 4503599627370496 (-52).
Definition f_2_5 : spec_float := S754_finite false 5629499534213120 (-51).
Definition f_5_0 : spec_float := S754_finite false 5629499534213120 (-50).

Definition brighten_frame : frame_cb notes :=
  fun frame _ _ _ s u =>
    CbRet (ObjArray {| shape := shape frame;
                       data := map (fun x => (x + 10) mod 256) (data frame) |})
      s u.

Definition gamma_frame : frame_cb notes :=
  fun frame _ _ _ s u => CbRet (ObjArray frame) s u.

(** A callback that crops the frame to its first row. *)
Definition crop_frame : frame_cb notes :=
  fun frame _ _ _ s u =>
    CbRet (ObjArray {| shape := [1; 2; 3]; data := firstn 6 (data frame) |})
      s u.

Definition gamma_before : settings_cb notes :=
  fun key _ s u => CbRet tt s (u ++ [("tear down " ++ key)%string])%list.

Definition gamma_after : settings_cb notes :=
  fun key _ s u => CbRet tt s (u ++ [("rebuild " ++ key)%string])%list.

Definition gamma_settings : settings_dict :=
  [("level", [PFloat f_1_0; PFloat (S754_zero false); PFloat f_5_0;
              PFloat f_1_0; PStr "Gamma level"])].

Definition brighten_module : py_module notes :=
  {| m_on_frame_process := Some brighten_frame;
     m_on_load := None; m_on_unload := None;
     m_before_change_settings := None; m_after_change_settings := None;
     m_name := Some (PStr "Brighten"); m_version := None; m_desc := None;
     m_settings := None |}.

Definition gamma_module : py_module notes :=
  {| m_on_frame_process := Some gamma_frame;
     m_on_load := None; m_on_unload := None;
     m_before_change_settings := Some gamma_before;
     m_after_change_settings := Some gamma_after;
     m_name := None; m_version := Some (PStr "1.0"); m_desc := None;
     m_settings := Some gamma_settings |}.

Definition broken_module : py_module notes :=
  {| m_on_frame_process := None;
     m_on_load := None; m_on_unload := None;
     m_before_change_settings := None; m_after_change_settings := None;
     m_name := None; m_version := None; m_desc := None;
     m_settings := None |}.

Definition demo_import (module_name path : string) : result (py_module notes) :=
  if String.eqb path "/app/pipelines/brighten.py" then Ok brighten_module
  else if String.eqb path "/app/pipelines/gamma.py" then Ok gamma_module
  else if String.eqb path "/app/pipelines/broken.py" then Ok broken_module
  else Err (UserError "FileNotFoundError").

Definition brighten : Pipeline notes :=
  {| path := "/app/pipelines/brighten.py"; file := "brighten.py";
     name := PStr "Brighten";
     callbacks := {| on_frame_process := brighten_frame;
                     on_load := None; on_unload := None;
                     before_change_settings := None;
                     after_change_settings := None |};
     version := PStr ""; desc := PStr "";
     settings := None; mappings := [] |}.

Definition gamma_with (s : settings_dict) : Pipeline notes :=
  {| path := "/app/pipelines/gamma.py"; file := "gamma.py";
     name := PStr "gamma";
     callbacks := {| on_frame_process := gamma_frame;
                     on_load := None; on_unload := None;
                     before_change_settings := Some gamma_before;
                     after_change_settings := Some gamma_after |};
     version := PStr "1.0"; desc := PStr "";
     settings := Some s; mappings := [("level", 2)] |}.

Definition gamma : Pipeline notes := gamma_with gamma_settings.

Definition demo_pipelines : dict (Pipeline notes) :=
  [("brighten.py", brighten); ("gamma.py", gamma)].

Definition demo_load_pipelines (logger : option Logger) :=
  load_pipelines notes demo_repr_float demo_repr_container demo_basename
    demo_isdir demo_abspath demo_glob demo_import logger.

Example demo_load_pipelines_result :
  demo_load_pipelines None = (Ok demo_pipelines, []).
Proof. vm_compute. reflexivity. Qed.

Example combo_tooltips :
  re_match _COMBO_TAG_REGEX "%COMBO[a,b,c] Blend mode" = true /\
  re_match _COMBO_TAG_REGEX "%COMBO[Only one]" = true /\
  re_match _COMBO_TAG_REGEX "Blend mode %COMBO[a,b,c]" = false /\
  re_match _COMBO_TAG_REGEX "%COMBO[a,b,c" = false /\
  re_match _COMBO_TAG_REGEX "%combo[a,b,c]" = false.
Proof. vm_compute. repeat split. Qed.

(* ------------------------------------------------------------------ *)
(** *** Type inference and the codec on the installation *)

(** C5 on instances: a boolean default with [None] as tooltip, the text
    [False] as default, an integer with and without a combo tooltip, a
    float and a plain string. *)
Lemma to_internal_type_priority_witness :
  _to_internal_type demo_repr_float demo_repr_container (PBool true) PNone
    = Ok 0 /\
  _to_internal_type demo_repr_float demo_repr_container (PStr "False")
    (PStr "%COMBO[a,b]") = Ok 0 /\
  _to_internal_type demo_repr_float demo_repr_container (PInt 2)
    (PStr "%COMBO[a,b,c] Blend mode") = Ok 3 /\
  _to_internal_type demo_repr_float demo_repr_container (PInt 2)
    (PStr "Blend mode") = Ok 1 /\
  _to_internal_type demo_repr_float demo_repr_container (PFloat f_1_0)
    (PStr "Gamma level") = Ok 2 /\
  _to_internal_type demo_repr_float demo_repr_container (PStr "high")
    (PStr "Quality") = Ok 2.
Proof.
  destruct (to_internal_type_priority demo_repr_float demo_repr_container)
    as (Hbool & Hcombo & Hint & Hother).
  split; [apply Hbool; left; reflexivity|].
  split; [apply Hbool; right; reflexivity|].
  split; [apply Hcombo; reflexivity|].
  split; [apply Hint; reflexivity|].
  split; apply Hother; (discriminate || reflexivity).
Defined.


Lemma NoDup_one {A} (a : A) : NoDup [a].
Proof. constructor; [intros [] | constructor]. Defined.

(** A plugin with an integer and a boolean setting. *)
Definition radius_entry (z : Z) : var_list :=
  [PInt z; PInt 0; PInt 10; PInt 1; PStr "Blur radius"].

Definition fast_entry (b : bool) : var_list :=
  [PBool b; PNone; PNone; PNone; PStr "Fast approximation"].

Definition blur_settings : settings_dict :=
  [("radius", radius_entry 3); ("fast", fast_entry false)].

Definition blur_with (s : settings_dict) : Pipeline notes :=
  {| path := "/app/pipelines/blur.py"; file := "blur.py";
     name := PStr "blur";
     callbacks := {| on_frame_process := gamma_frame;
                     on_load := None; on_unload := None;
                     before_change_settings := Some gamma_before;
                     after_change_settings := Some gamma_after |};
     version := PStr ""; desc := PStr "";
     settings := Some s; mappings := [("radius", 1); ("fast", 0)] |}.

Definition blur : Pipeline notes := blur_with blur_settings.




Example codec_on_blur :
  encode (PInt 7) = Ok (PFloat (S754_finite false 7881299347898368 (-50))) /\
  _to_value demo_int_of_str blur "radius"
    (PFloat (S754_finite false 7881299347898368 (-50))) = Ok (PInt 7) /\
  _to_value demo_int_of_str blur "radius" (PFloat f_2_5) = Ok (PInt 2) /\
  encode (PBool true) = Ok (PFloat f_1_0) /\
  _to_value demo_int_of_str blur "fast" (PFloat f_1_0) = Ok (PBool true) /\
  _to_value demo_int_of_str gamma "level" (PFloat f_2_5) = Ok (PFloat f_2_5).
Proof. vm_compute. repeat split. Qed.

Definition count_settings : settings_dict :=
  [("count", [PInt 9007199254740993; PInt 0; PInt 9007199254740993; PInt 1;
              PStr "Number of samples"])].

Definition count_pipeline : Pipeline notes :=
  {| path := "/app/pipelines/count.py"; file := "count.py";
     name := PStr "count"; callbacks := callbacks brighten;
     version := PStr ""; desc := PStr "";
     settings := Some count_settings; mappings := [("count", 1)] |}.


(* ------------------------------------------------------------------ *)
(** *** Frames on the installation *)

Definition crop_pipeline (f : string) : Pipeline notes :=
  {| path := "/app/pipelines/" ++ f; file := f; name := PStr "crop";
     callbacks := {| on_frame_process := crop_frame;
                     on_load := None; on_unload := None;
                     before_change_settings := None;
                     after_change_settings := None |};
     version := PStr ""; desc := PStr "";
     settings := None; mappings := [] |}.

Definition fresh_world (p : Pipeline notes) : world notes :=
  {| w_self := p; w_user := []; w_trace := [] |}.

Definition frame_2x2 : ndarray :=
  {| shape := [2; 2; 3]; data := [0; 0; 0; 0; 0; 0; 0; 0; 0; 0; 0; 0] |}.

(** C4 on a plugin that crops a 2x2 frame to one row. *)
Lemma process_frame_shape_check_witness :
  process_frame frame_2x2 2 2 0 (fresh_world (crop_pipeline "crop.py"))
    = Raised FrameSizeModificationError (fresh_world (crop_pipeline "crop.py")).
Proof.
  apply (proj2 (proj1 (process_frame_shape_check notes
                         (fresh_world (crop_pipeline "crop.py"))
                         frame_2x2 2 2 0
                         {| shape := [1; 2; 3]; data := [0; 0; 0; 0; 0; 0] |}
                         None [] eq_refl))).
  discriminate.
Defined.

Example brighten_keeps_shape :
  process_frame frame_2x2 2 2 0 (fresh_world brighten)
    = Done {| shape := [2; 2; 3];
              data := [10; 10; 10; 10; 10; 10; 10; 10; 10; 10; 10; 10] |}
        (fresh_world brighten).
Proof. reflexivity. Qed.

(** C4 as stated fails: two different plugins that change the shape raise
    the same exception, so nothing read from the exception can name the
    plugin. *)
Lemma frame_error_names_no_plugin :
  ~ exists offender : exn -> string,
      forall (w : world notes) (frame : ndarray) (width height n : Z)
             (e : exn) (w' : world notes),
        process_frame frame width height n w = Raised e w' ->
        offender e = file (w_self w).
Proof.
  intros [offender H].
  pose proof (H (fresh_world (crop_pipeline "crop_a.py")) frame_2x2 2 2 0
                _ _ eq_refl) as Ha.
  pose proof (H (fresh_world (crop_pipeline "crop_b.py")) frame_2x2 2 2 0
                _ _ eq_refl) as Hb.
  simpl in Ha, Hb. rewrite Ha in Hb. discriminate.
Qed.

(* ------------------------------------------------------------------ *)
(** *** Changing a setting on the installation *)

Definition level_entry (v : spec_float) : var_list :=
  [PFloat v; PFloat (S754_zero false); PFloat f_5_0; PFloat f_1_0;
   PStr "Gamma level"].

(** C7 on [change_settings(blur, True, "radius", 2.5)], an integer
    setting: the trace shows [before_change_settings] entered with the raw
    value [2.5] on the old radius [3], then the store of the integer [2],
    then [after_change_settings] entered with [2.5] on the new radius; the
    plugin's notes have the two calls in that order. *)
Lemma change_settings_order_witness :
  change_settings demo_int_of_str true "radius" (PFloat f_2_5) (fresh_world blur)
    = Done tt
        {| w_self := blur_with [("radius", radius_entry 2);
                                ("fast", fast_entry false)];
           w_user := ["tear down radius"; "rebuild radius"];
           w_trace :=
             [Enter_before_change_settings "radius" (PFloat f_2_5)
                (Some [("radius", radius_entry 3); ("fast", fast_entry false)]);
              Store_setting "radius" (PInt 2);
              Enter_after_change_settings "radius" (PFloat f_2_5)
                (Some [("radius", radius_entry 2);
                       ("fast", fast_entry false)])] |}.
Proof.
  exact (change_settings_order notes demo_int_of_str
           (fresh_world blur)
           {| w_self := blur; w_user := ["tear down radius"];
              w_trace := [Enter_before_change_settings "radius" (PFloat f_2_5)
                            (Some blur_settings)] |}
           true "radius" (PFloat f_2_5) (PInt 2) 1
           blur_settings (PInt 3)
           [PInt 0; PInt 10; PInt 1; PStr "Blur radius"]
           eq_refl eq_refl
           (ex_intro _ (Some blur_settings)
              (ex_intro _ ["tear down radius"] (conj eq_refl eq_refl)))
           eq_refl eq_refl).
Defined.

(** The scenario [change_settings(gamma, True, "level", 2.5)], a float
    setting, and a boolean setting changed by the number [1.0]. *)
Example change_settings_gamma_level :
  change_settings demo_int_of_str true "level" (PFloat f_2_5) (fresh_world gamma)
    = Done tt
        {| w_self := gamma_with [("level", level_entry f_2_5)];
           w_user := ["tear down level"; "rebuild level"];
           w_trace :=
             [Enter_before_change_settings "level" (PFloat f_2_5)
                (Some [("level", level_entry f_1_0)]);
              Store_setting "level" (PFloat f_2_5);
              Enter_after_change_settings "level" (PFloat f_2_5)
                (Some [("level", level_entry f_2_5)])] |}.
Proof. reflexivity. Qed.

Example change_settings_blur_fast :
  change_settings demo_int_of_str true "fast" (PFloat f_1_0) (fresh_world blur)
    = Done tt
        {| w_self := blur_with [("radius", radius_entry 3);
                                ("fast", fast_entry true)];
           w_user := ["tear down fast"; "rebuild fast"];
           w_trace :=
             [Enter_before_change_settings "fast" (PFloat f_1_0)
                (Some blur_settings);
              Store_setting "fast" (PBool true);
              Enter_after_change_settings "fast" (PFloat f_1_0)
                (Some [("radius", radius_entry 3);
                       ("fast", fast_entry true)])] |}.
Proof. reflexivity. Qed.

Example change_settings_disabled :
  change_settings demo_int_of_str false "level" (PFloat f_2_5) (fresh_world gamma)
    = Done tt
        {| w_self := gamma_with [("level", level_entry f_2_5)];
           w_user := [];
           w_trace := [Store_setting "level" (PFloat f_2_5)] |}.
Proof. reflexivity. Qed.

(** C10 on [change_settings(gamma, True, "gain", 2.5)]: the callback has
    run, nothing is stored, [KeyError] is raised. *)
Lemma change_settings_unknown_key_witness :
  change_settings demo_int_of_str true "gain" (PFloat f_2_5) (fresh_world gamma)
    = Raised KeyError
        {| w_self := gamma;
           w_user := ["tear down gain"];
           w_trace := [Enter_before_change_settings "gain" (PFloat f_2_5)
                         (Some gamma_settings)] |}.
Proof.
  exact (proj1 (change_settings_unknown_key notes demo_int_of_str
                  (fresh_world gamma) true "gain" (PFloat f_2_5) eq_refl)
           gamma_before (Some gamma_settings) ["tear down gain"]
           eq_refl eq_refl).
Defined.

(* ------------------------------------------------------------------ *)
(** *** Loading the plugins of the installation *)

Definition every_dir (p : string) : bool := true.

(** C1 as stated fails when both candidates are directories: the root is
    the second one, where this installation has no plugin, and not the
    first. *)
Lemma pipelines_root_is_last_not_first :
  find_pipeline_dir every_dir demo_abspath _PIPELINE_DIRS None
    = Some "/app/PyHook/pipelines" /\
  first_existing_dir every_dir demo_abspath _PIPELINE_DIRS
    = Some "/app/pipelines" /\
  load_pipelines notes demo_repr_float demo_repr_container demo_basename
    every_dir demo_abspath demo_glob demo_import None = (Ok [], []).
Proof. repeat split. Qed.

Definition the_logger : Logger := mk_Logger "PyHook".

Lemma demo_failures_are_Exceptions (f : string) (e : exn) :
  In f (demo_glob ("/app/pipelines" ++ "/*.py")) ->
  load_file notes demo_repr_float demo_repr_container demo_basename
    demo_import f = Err e ->
  isinstance_Exception e = true.
Proof.
  intros [<- | [<- | [<- | []]]] H; vm_compute in H;
    first [discriminate H | injection H as <-; reflexivity].
Defined.

(** C8 on the installation, with a logger: [broken.py] is logged and left
    out, [gamma.py] after it is loaded. *)
Lemma load_pipelines_isolates_failures_witness :
  demo_load_pipelines (Some the_logger)
    = (Ok demo_pipelines,
       loaded_records "/app/pipelines/brighten.py" ++
       failed_records "/app/pipelines/broken.py" ValueError ++
       loaded_records "/app/pipelines/gamma.py")%list.
Proof.
  exact (proj1 (load_pipelines_isolates_failures notes demo_repr_float
                  demo_repr_container demo_basename demo_isdir demo_abspath
                  demo_glob demo_import (Some the_logger) "/app/pipelines"
                  eq_refl demo_failures_are_Exceptions)).
Defined.

(** An import that ends the interpreter while running [broken.py]. *)
Definition exiting_import (module_name path : string)
  : result (py_module notes) :=
  if String.eqb path "/app/pipelines/broken.py" then Err SystemExit
  else demo_import module_name path.

(** C8 as stated fails twice: without a logger the failure of [broken.py]
    is logged nowhere; and a [SystemExit] raised while a file runs is not
    caught, so the scan stops and [gamma.py] is never loaded. *)
Lemma load_pipelines_unlogged_or_aborted :
  (load_file notes demo_repr_float demo_repr_container demo_basename
     demo_import "/app/pipelines/broken.py" = Err ValueError /\
   snd (demo_load_pipelines None) = []) /\
  load_pipelines notes demo_repr_float demo_repr_container demo_basename
    demo_isdir demo_abspath demo_glob exiting_import (Some the_logger)
    = (Err SystemExit, loaded_records "/app/pipelines/brighten.py").
Proof. repeat split. Qed.

(* ------------------------------------------------------------------ *)
(** *** The settings file of the installation *)

Definition game_dir : string := "C:/Game".

(** A file system with at most the settings file of [game_dir]. *)
Definition fs_with (content : option file_content) : filesystem :=
  {| fs_read := fun p => if String.eqb p (settings_path game_dir)
                         then content else None;
     fs_writable := fun _ => true |}.

(** C2 on the installation without a settings file. *)
Lemma load_settings_no_file_witness :
  load_settings demo_pipelines game_dir (fs_with None)
    = Loaded demo_pipelines
        {| pipeline_order := ["brighten.py"; "gamma.py"];
           active_pipelines := []; to_unload := []; to_load := [];
           changes := [] |}
        false.
Proof.
  exact (load_settings_no_file notes demo_pipelines game_dir (fs_with None)
           eq_refl).
Defined.

(** C2 as stated fails on a file that does not decode: [json.load] raises
    and [load_settings] does not return. *)
Lemma load_settings_malformed_raises :
  load_settings demo_pipelines game_dir (fs_with (Some Malformed))
    = LoadFailed JSONDecodeError demo_pipelines /\
  forall pipelines data flag,
    load_settings demo_pipelines game_dir (fs_with (Some Malformed))
      <> Loaded pipelines data flag.
Proof. split; [reflexivity | discriminate]. Qed.

Definition sharpen : Pipeline notes :=
  {| path := "/app/pipelines/sharpen.py"; file := "sharpen.py";
     name := PStr "sharpen"; callbacks := callbacks brighten;
     version := PStr ""; desc := PStr "";
     settings := None; mappings := [] |}.

(** A record left by an earlier run: [old.py] is gone since, [sharpen.py]
    is new, and [gamma.py] had a setting [gone] then. *)
Definition drifted_record : dict pyval :=
  [("order", PList [PStr "old.py"; PStr "gamma.py"; PStr "brighten.py"]);
   ("active", PList [PStr "old.py"; PStr "gamma.py"]);
   ("old.py", PDict [("x", PInt 1)]);
   ("gamma.py", PDict [("level", PFloat f_2_5); ("gone", PInt 1)])].

Definition current_pipelines : dict (Pipeline notes) :=
  [("brighten.py", brighten); ("gamma.py", gamma); ("sharpen.py", sharpen)].

Lemma drifted_blocks_are_dicts : blocks_are_dicts drifted_record.
Proof.
  intros k v [H | [H | [H | [H | []]]]] Ho Ha;
    injection H as <- <-; try contradiction; eexists; reflexivity.
Defined.

Lemma current_pipelines_nonempty : pipelines_nonempty notes current_pipelines.
Proof.
  intros f p s [H | [H | [H | []]]] Hs; injection H as <- <-;
    try discriminate Hs.
  injection Hs as <-. intros key entry [H | []]. injection H as <- <-.
  discriminate.
Defined.

(** C3 on the drifted record: [old.py] is dropped from the order and from
    the active list, [sharpen.py] comes last. *)
Lemma load_settings_reconciles_witness :
  exists pipelines',
    dict_keys pipelines' = ["brighten.py"; "gamma.py"; "sharpen.py"] /\
    load_settings current_pipelines game_dir
      (fs_with (Some (Json (PDict drifted_record))))
      = Loaded pipelines'
          {| pipeline_order := ["gamma.py"; "brighten.py"; "sharpen.py"];
             active_pipelines := ["gamma.py"];
             to_unload := [];
             to_load := ["gamma.py"];
             changes := [] |}
          true.
Proof.
  exact (load_settings_reconciles notes current_pipelines game_dir
           (fs_with (Some (Json (PDict drifted_record)))) drifted_record
           ["old.py"; "gamma.py"; "brighten.py"] ["old.py"; "gamma.py"]
           eq_refl eq_refl eq_refl
           drifted_blocks_are_dicts current_pipelines_nonempty).
Defined.

Example load_settings_drifted_values :
  load_settings current_pipelines game_dir
    (fs_with (Some (Json (PDict drifted_record))))
    = Loaded
        [("brighten.py", brighten);
         ("gamma.py", gamma_with [("level", level_entry f_2_5)]);
         ("sharpen.py", sharpen)]
        {| pipeline_order := ["gamma.py"; "brighten.py"; "sharpen.py"];
           active_pipelines := ["gamma.py"];
           to_unload := [];
           to_load := ["gamma.py"];
           changes := [] |}
        true.
Proof. reflexivity. Qed.

(** The installation after the level of [gamma] was set to [2.5]. *)
Definition tuned_pipelines : dict (Pipeline notes) :=
  [("brighten.py", brighten);
   ("gamma.py", gamma_with [("level", level_entry f_2_5)])].

Lemma tuned_is_loaded_map : loaded_map notes tuned_pipelines.
Proof.
  split; [|split].
  - constructor; [intros [H | []]; discriminate H | apply NoDup_one].
  - intros f [<- | [<- | []]]; split; discriminate.
  - intros f p s [H | [H | []]] Hs; injection H as <- <-;
      [discriminate Hs | injection Hs as <-; apply NoDup_one].
Defined.

Lemma tuned_agrees_with_demo : pipelines_agree notes tuned_pipelines demo_pipelines.
Proof.
  constructor; [|constructor; [|constructor]].
  - split; [reflexivity | split; [reflexivity | exact I]].
  - split; [reflexivity | split; [reflexivity |]].
    constructor; [|constructor].
    split; [reflexivity | repeat split; discriminate].
Defined.

Lemma tuned_order_covers (p : string) :
  In p ["gamma.py"; "brighten.py"] <-> In p (dict_keys tuned_pipelines).
Proof.
  simpl. split.
  - intros [H | [H | []]]; [right; left | left]; exact H.
  - intros [H | [H | []]]; [right; left | left]; exact H.
Defined.

Lemma tuned_active_loaded (p : string) :
  In p ["gamma.py"] -> In p (dict_keys tuned_pipelines).
Proof.
  simpl. intros [H | []]. right. left. exact H.
Defined.

(** C9 on the installation: the tuned pipelines are saved, and loading the
    file into the plugins at their defaults gives the tuned pipelines, the
    order and the active list back. *)
Lemma persistence_roundtrip_witness :
  exists fs',
    save_settings tuned_pipelines ["gamma.py"; "brighten.py"] ["gamma.py"]
      game_dir (fs_with None) = Ok fs' /\
    fs_read fs' (settings_path game_dir) =
      Some (Json (PDict
        [("order", PList [PStr "gamma.py"; PStr "brighten.py"]);
         ("active", PList [PStr "gamma.py"]);
         ("gamma.py", PDict [("level", PFloat f_2_5)])])) /\
    load_settings demo_pipelines game_dir fs' =
      Loaded tuned_pipelines
        {| pipeline_order := ["gamma.py"; "brighten.py"];
           active_pipelines := ["gamma.py"];
           to_unload := []; to_load := ["gamma.py"]; changes := [] |}
        true.
Proof.
  exact (persistence_roundtrip notes tuned_pipelines demo_pipelines
           ["gamma.py"; "brighten.py"] ["gamma.py"] game_dir (fs_with None)
           tuned_is_loaded_map tuned_agrees_with_demo
           tuned_order_covers tuned_active_loaded eq_refl).
Defined.

(* ================================================================== *)
(** ** The further properties on the installation *)

Arguments pipelines_of {U} r.
Arguments path {U} p.

(** X4 on [gamma]. *)
Lemma pipeline_init_invariant_witness :
  settings gamma = Some gamma_settings /\
  file gamma = demo_basename "/app/pipelines/gamma.py".
Proof.
  pose proof (pipeline_init_invariant notes demo_repr_float
                demo_repr_container demo_basename
                "/app/pipelines/gamma.py" (PStr "gamma") (callbacks gamma)
                (PStr "1.0") (PStr "") (Some gamma_settings) gamma eq_refl)
    as H.
  exact (conj (proj1 H) (proj1 (proj2 H))).
Defined.

(** X5 on [gamma]: an integer for the float setting [level]. *)
Lemma to_value_declared_key_witness :
  exists v, _to_value demo_int_of_str gamma "level" (PInt 3) = Ok v.
Proof.
  exact (proj2 (to_value_declared_key notes demo_repr_float
                  demo_repr_container demo_int_of_str demo_basename
                  "/app/pipelines/gamma.py" (PStr "gamma") (callbacks gamma)
                  (PStr "1.0") (PStr "") gamma_settings gamma "level"
                  eq_refl (or_introl eq_refl))
           (PInt 3)).
Defined.

Example to_value_nan_for_integer_setting :
  _to_value demo_int_of_str count_pipeline "count" (PFloat S754_nan)
    = Err ValueError /\
  _to_value demo_int_of_str count_pipeline "count" (PFloat (S754_infinity false))
    = Err OverflowError /\
  _to_value demo_int_of_str gamma "level" (PFloat S754_nan)
    = Ok (PFloat S754_nan).
Proof. repeat split. Qed.

(** A settings callback that raises. *)
Definition failing_before : settings_cb notes :=
  fun _ _ s u => CbRaise (UserError "RuntimeError") s (u ++ ["failed"])%list.

Definition touchy : Pipeline notes :=
  {| path := "/app/pipelines/touchy.py"; file := "touchy.py";
     name := PStr "touchy";
     callbacks := {| on_frame_process := gamma_frame;
                     on_load := None; on_unload := None;
                     before_change_settings := Some failing_before;
                     after_change_settings := Some gamma_after |};
     version := PStr ""; desc := PStr "";
     settings := Some gamma_settings; mappings := [("level", 2)] |}.

(** X7 on [touchy]: the level stays at [1.0]. *)
Lemma change_settings_before_raises_witness :
  change_settings demo_int_of_str true "level" (PFloat f_2_5) (fresh_world touchy)
    = Raised (UserError "RuntimeError")
        {| w_self := touchy; w_user := ["failed"];
           w_trace := [Enter_before_change_settings "level" (PFloat f_2_5)
                         (Some gamma_settings)] |}.
Proof.
  exact (change_settings_before_raises notes demo_int_of_str
           (fresh_world touchy) "level" (PFloat f_2_5) failing_before
           (UserError "RuntimeError") (Some gamma_settings) ["failed"]
           eq_refl eq_refl).
Defined.

Definition frame_2x2_bright : ndarray :=
  {| shape := [2; 2; 3];
     data := [10; 10; 10; 10; 10; 10; 10; 10; 10; 10; 10; 10] |}.

(** X8 on [brighten]. *)
Lemma process_frame_keeps_shape_witness :
  shape frame_2x2_bright = shape frame_2x2 /\
  w_trace (fresh_world brighten) = w_trace (fresh_world brighten) /\
  file (w_self (fresh_world brighten)) = file (w_self (fresh_world brighten)) /\
  mappings (w_self (fresh_world brighten))
    = mappings (w_self (fresh_world brighten)).
Proof.
  exact (process_frame_keeps_shape notes (fresh_world brighten)
           (fresh_world brighten) frame_2x2 frame_2x2_bright 2 2 0 eq_refl).
Defined.

(** X10 on the installation. *)
Lemma load_pipelines_well_formed_witness :
  NoDup (dict_keys demo_pipelines).
Proof.
  exact (proj1 (load_pipelines_well_formed notes demo_repr_float
                  demo_repr_container demo_basename demo_isdir demo_abspath
                  demo_glob demo_import None demo_pipelines []
                  demo_load_pipelines_result)).
Defined.

Lemma brighten_does_not_fail (g : string) (x : exn) :
  In g ["/app/pipelines/brighten.py"] ->
  load_file notes demo_repr_float demo_repr_container demo_basename
    exiting_import g = Err x ->
  isinstance_Exception x = true.
Proof.
  intros [<- | []] H. vm_compute in H. discriminate H.
Defined.

(** X11 on the installation with [broken.py] ending the interpreter. *)
Lemma load_pipelines_stops_at_exit_witness :
  load_pipelines notes demo_repr_float demo_repr_container demo_basename
    demo_isdir demo_abspath demo_glob exiting_import (Some the_logger)
    = (Err SystemExit, loaded_records "/app/pipelines/brighten.py").
Proof.
  exact (load_pipelines_stops_at_exit notes demo_repr_float
           demo_repr_container demo_basename demo_isdir demo_abspath
           demo_glob exiting_import (Some the_logger) "/app/pipelines"
           ["/app/pipelines/brighten.py"] ["/app/pipelines/gamma.py"]
           "/app/pipelines/broken.py" SystemExit
           eq_refl eq_refl brighten_does_not_fail eq_refl eq_refl).
Defined.

Definition drifted_fs : filesystem :=
  fs_with (Some (Json (PDict drifted_record))).

(** X14 on the drifted record. *)
Lemma load_settings_keeps_declarations_witness :
  pipelines_agree notes current_pipelines
    (pipelines_of (load_settings current_pipelines game_dir drifted_fs)).
Proof.
  exact (load_settings_keeps_declarations notes current_pipelines game_dir
           drifted_fs current_pipelines_nonempty).
Defined.

(** A record whose [order] holds a number besides a key. *)
Definition mixed_record : dict pyval :=
  [("order", PList [PStr "gamma.py"; PInt 7]);
   ("active", PList [PStr "gamma.py"])].

Definition mixed_fs : filesystem :=
  fs_with (Some (Json (PDict mixed_record))).

Definition mixed_data : PipelineRuntimeData :=
  {| pipeline_order := ["gamma.py"; "brighten.py"; "sharpen.py"];
     active_pipelines := ["gamma.py"];
     to_unload := []; to_load := ["gamma.py"]; changes := [] |}.

(** X15 on the mixed record: the number is dropped and the keys that the
    list lacks are appended. *)
Lemma load_settings_order_covers_witness :
  load_settings current_pipelines game_dir mixed_fs
    = Loaded current_pipelines mixed_data true /\
  (forall k, In k (pipeline_order mixed_data) <->
             In k (dict_keys current_pipelines)).
Proof.
  split; [reflexivity|].
  exact (proj1 (proj2 (proj2
           (load_settings_order_covers notes current_pipelines
              current_pipelines game_dir mixed_fs mixed_record
              [PStr "gamma.py"; PInt 7] mixed_data true
              eq_refl eq_refl eq_refl)))).
Defined.

(** When [order] is a string, the loop looks for each key inside it: a key
    that occurs in the text is neither kept nor appended. *)
Example load_settings_order_as_text :
  load_settings current_pipelines game_dir
    (fs_with (Some (Json (PDict [("order", PStr "gamma.py");
                                 ("active", PList [])]))))
    = Loaded current_pipelines
        {| pipeline_order := ["brighten.py"; "sharpen.py"];
           active_pipelines := []; to_unload := []; to_load := [];
           changes := [] |}
        true.
Proof. reflexivity. Qed.

(** A record that has lost its [order]. *)
Definition headless_record : dict pyval :=
  [("active", PList [PStr "gamma.py"]);
   ("gamma.py", PDict [("level", PFloat f_2_5)])].

Lemma headless_blocks_are_dicts : blocks_are_dicts headless_record.
Proof.
  intros k v [H | [H | []]] Ho Ha;
    injection H as <- <-; try contradiction; eexists; reflexivity.
Defined.

(** X16 on the headless record. *)
Lemma load_settings_missing_list_witness :
  exists ps',
    apply_settings notes headless_record current_pipelines = (ps', None) /\
    load_settings current_pipelines game_dir
      (fs_with (Some (Json (PDict headless_record))))
      = LoadFailed KeyError ps'.
Proof.
  exact (load_settings_missing_list notes current_pipelines game_dir
           (fs_with (Some (Json (PDict headless_record)))) headless_record
           eq_refl headless_blocks_are_dicts current_pipelines_nonempty
           (or_introl eq_refl)).
Defined.

Example load_settings_headless_changes_level :
  load_settings current_pipelines game_dir
    (fs_with (Some (Json (PDict headless_record))))
    = LoadFailed KeyError
        [("brighten.py", brighten);
         ("gamma.py", gamma_with [("level", level_entry f_2_5)]);
         ("sharpen.py", sharpen)].
Proof. reflexivity. Qed.

(** A record whose blocks all miss: an unknown plugin, an undeclared
    setting, and a block for a plugin without settings. *)
Definition stale_record : dict pyval :=
  [("order", PList [PStr "gamma.py"]);
   ("active", PList []);
   ("old.py", PDict [("x", PInt 1)]);
   ("gamma.py", PDict [("gone", PInt 1)]);
   ("brighten.py", PInt 3)].

Lemma stale_blocks_ignored (f : string) (v : pyval) :
  In (f, v) stale_record -> block_ignored notes current_pipelines f v.
Proof.
  intros [H | [H | [H | [H | [H | []]]]]]; injection H as <- <-.
  - left. reflexivity.
  - right. left. reflexivity.
  - right. right. left. reflexivity.
  - right. right. right. exists gamma. split; [reflexivity|].
    right. exists gamma_settings, [("gone", PInt 1)].
    split; [reflexivity|]. split; [reflexivity|].
    intros key [<- | []]. reflexivity.
  - right. right. right. exists brighten. split; [reflexivity|].
    left. reflexivity.
Defined.

(** X17 on the stale record. *)
Lemma load_settings_ignores_unknown_witness :
  pipelines_of (load_settings current_pipelines game_dir
                  (fs_with (Some (Json (PDict stale_record)))))
    = current_pipelines.
Proof.
  exact (load_settings_ignores_unknown notes current_pipelines game_dir
           (fs_with (Some (Json (PDict stale_record)))) stale_record
           eq_refl stale_blocks_ignored).
Defined.

(** A record whose [order] is a number. *)
Definition numbered_record : dict pyval :=
  [("order", PInt 3); ("active", PList []);
   ("gamma.py", PDict [("level", PFloat f_2_5)])].

Lemma numbered_blocks_are_dicts : blocks_are_dicts numbered_record.
Proof.
  intros k v [H | [H | [H | []]]] Ho Ha;
    injection H as <- <-; try contradiction; eexists; reflexivity.
Defined.

(** X18 on the numbered record. *)
Lemma load_settings_bad_order_witness :
  exists ps',
    apply_settings notes numbered_record current_pipelines = (ps', None) /\
    load_settings current_pipelines game_dir
      (fs_with (Some (Json (PDict numbered_record))))
      = LoadFailed TypeError ps'.
Proof.
  exact (load_settings_bad_order notes current_pipelines game_dir
           (fs_with (Some (Json (PDict numbered_record)))) numbered_record
           (PInt 3) eq_refl numbered_blocks_are_dicts
           current_pipelines_nonempty eq_refl (or_introl eq_refl)).
Defined.

(** X19 on the installation and the drifted record. *)
Lemma load_settings_after_load_pipelines_witness :
  exists ps',
    dict_keys ps' = dict_keys demo_pipelines /\
    load_settings demo_pipelines game_dir drifted_fs =
      Loaded ps'
        {| pipeline_order := ["gamma.py"; "brighten.py"];
           active_pipelines := ["gamma.py"];
           to_unload := [];
           to_load := ["gamma.py"];
           changes := [] |}
        true.
Proof.
  exact (load_settings_after_load_pipelines notes demo_repr_float
           demo_repr_container demo_basename demo_isdir demo_abspath
           demo_glob demo_import None demo_pipelines [] game_dir drifted_fs
           drifted_record ["old.py"; "gamma.py"; "brighten.py"]
           ["old.py"; "gamma.py"]
           demo_load_pipelines_result eq_refl eq_refl eq_refl
           drifted_blocks_are_dicts).
Defined.

Lemma drifted_keys_distinct : NoDup (dict_keys drifted_record).
Proof.
  repeat (constructor; [simpl; intros H;
                        repeat (destruct H as [H | H]; [discriminate H|]);
                        exact H|]).
  constructor.
Defined.

Lemma drifted_blocks_distinct (f : string) (kv : dict pyval) :
  In (f, PDict kv) drifted_record -> NoDup (dict_keys kv).
Proof.
  intros [H | [H | [H | [H | []]]]]; try discriminate H;
    injection H as _ <-;
    repeat (constructor; [simpl; intros H;
                          repeat (destruct H as [H | H]; [discriminate H|]);
                          exact H|]);
    constructor.
Defined.

(** X20 on the drifted record. *)
Lemma load_settings_again_witness :
  load_settings
    (pipelines_of (load_settings current_pipelines game_dir drifted_fs))
    game_dir drifted_fs
    = load_settings current_pipelines game_dir drifted_fs.
Proof.
  exact (load_settings_again notes current_pipelines game_dir drifted_fs
           drifted_record eq_refl drifted_blocks_are_dicts
           current_pipelines_nonempty drifted_keys_distinct
           drifted_blocks_distinct).
Defined.
